(** * SqliteVectorStore: a model of [llama_index/vector_stores/sqlite.py]

    The store keeps one relational table of node records and one virtual
    table of embeddings (the vector index), joined on the row identity.
    This file embeds the Python class method by method:

    - Python exceptions are an error monad layered over the mutable state
      of [self] (the state survives a raise, as the object does);
    - the connection is a pair of databases, the committed one and the one
      seen inside the open transaction, with a trace of the calls made on
      it;
    - the SQL texts are kept as a small syntax tree and run by a small
      engine that knows the two tables of the store;
    - a Python float is an IEEE-754 binary64 value ([spec_float] of the
      standard library), and [struct.pack] with format [f] narrows it to
      binary32.

    What the surrounding libraries do is fixed by an [environment]:
    the byte order of the platform, whether the driver's cursors are
    context managers, and whether a [dict] can be bound as a parameter.
    The stock [sqlite3] module answers no to the last two. *)

From Stdlib Require Import ZArith List String Ascii Lia Bool SpecFloat.
From Stdlib.Strings Require Import Byte.
From stdpp Require Import base gmap sets list strings.

Local Open Scope string_scope.
Local Open Scope list_scope.
Local Open Scope Z_scope.

(** ** Exceptions and the monad of method bodies *)

Inductive exn :=
  (* raised by the interpreter or the libraries on the paths of the source *)
  | TypeError
  | KeyError
  | StructError
  | OperationalError
  | ProgrammingError
  | IntegrityError
  (* error kinds named by the design document; the source defines none *)
  | DimensionMismatch
  | StoreClosed
  | CorruptBuffer.

Inductive outcome (A : Type) :=
  | Ok (a : A)
  | Raise (e : exn).

Arguments Ok {A} a.
Arguments Raise {A} e.

Definition M (S A : Type) : Type := S -> outcome A * S.

Definition ret {S A} (a : A) : M S A := fun s => (Ok a, s).

Definition raise {S A} (e : exn) : M S A := fun s => (Raise e, s).

Definition bind {S A B} (m : M S A) (k : A -> M S B) : M S B :=
  fun s =>
    match m s with
    | (Ok a, s') => k a s'
    | (Raise e, s') => (Raise e, s')
    end.

Definition lift {S A} (o : outcome A) : M S A := fun s => (o, s).

Definition get {S} : M S S := fun s => (Ok s, s).

Declare Scope py_scope.
Delimit Scope py_scope with py.
Notation "x <- c1 ;; c2" := (bind c1 (fun x => c2))
  (at level 100, c1 at next level, right associativity) : py_scope.
Notation "c1 ;;; c2" := (bind c1 (fun _ => c2))
  (at level 100, right associativity) : py_scope.
Local Open Scope py_scope.

(** [for x in xs: body], with the loop-carried variables in [acc]. *)
Fixpoint for_each {S A B} (xs : list A) (body : A -> B -> M S B) (acc : B) : M S B :=
  match xs with
  | [] => ret acc
  | x :: xs' => acc' <- body x acc ;; for_each xs' body acc'
  end.

(** ** Values *)

(** A Python float. *)
Definition float : Type := spec_float.

Definition bytes : Type := list Byte.byte.

Definition document : Type := gmap string string.

(** What can be bound to a [?] or stored in a column. *)
Inductive value :=
  | VNone
  | VInt (n : Z)
  | VFloat (x : float)
  | VStr (s : string)
  | VBytes (b : bytes)
  | VDict (d : document).

#[global] Instance byte_eq_dec : EqDecision Byte.byte := Byte.byte_eq_dec.

#[global] Instance spec_float_eq_dec : EqDecision spec_float.
Proof. solve_decision. Defined.

#[global] Instance value_eq_dec : EqDecision value.
Proof. solve_decision. Defined.

(** The second argument of [execute]: any sequence.  A tuple gives its
    items; a [str] gives its characters, one string of length one each. *)
Inductive parameters :=
  | Tuple (items : list value)
  | Str (s : string).

Fixpoint characters (s : string) : list value :=
  match s with
  | EmptyString => []
  | String c s' => VStr (String c EmptyString) :: characters s'
  end.

Definition bindings (p : parameters) : list value :=
  match p with
  | Tuple items => items
  | Str s => characters s
  end.

(** ** Nodes (llama_index.schema, llama_index.vector_stores.types) *)

Record TextNode := {
  id_ : string;
  text : string;
  extra : document }.

Definition get_content (n : TextNode) : string := text n.

Definition set_content (n : TextNode) (s : string) : TextNode :=
  {| id_ := id_ n; text := s; extra := extra n |}.

Record NodeWithEmbedding := {
  node : TextNode;
  embedding : list float }.

Record VectorStoreQuery := {
  query_embedding : list float;
  similarity_top_k : Z }.

Record VectorStoreQueryResult := {
  nodes : list TextNode;
  similarities : list value;
  ids : list value }.

(** ** The database *)

Record node_row := {
  id : Z;
  node_text : value;
  metadata : value;
  node_id : value;
  doc_id : value }.

Record vss_row := {
  rowid : Z;
  vss_embedding : value }.

(** The two tables created by [_create_tables_if_not_exists], under the
    names they were created with.  [node_seq] is the AUTOINCREMENT counter:
    the largest identity the record table ever assigned. *)
Record database := {
  node_name : string;
  vss_name : string;
  node_rows : list node_row;
  node_seq : Z;
  vss_rows : list vss_row }.

(** [embedding(1536)] in the DDL of the virtual table. *)
Definition dimension : nat := 1536.

(** *** SQL texts *)

Inductive predicate :=
  | DocIdEq                                    (* doc_id = ? *)
  | RowidIn (table : string) (p : predicate).  (* rowid in (select id from table where p) *)

Inductive sql :=
  | Insert (table : string) (columns : list string) (values : option nat)
      (* insert into table(columns) values (?, ..., ?); [None]: no VALUES clause *)
  | Delete (table : string) (cond : predicate)
      (* delete from table where cond *)
  | From (table : string) (cond : predicate).
      (* from table where cond: a text that starts at FROM *)

(** The text of [query] (lines 104-109), as data: the source hands it to
    [fetchall], never to [execute]. *)
Record select_text := {
  sel_node_table : string;
  sel_vss_table : string }.

(** *** The engine *)

Inductive table_ref := NodeTable | VssTable.

Definition resolve (db : database) (name : string) : option table_ref :=
  if decide (name = node_name db) then Some NodeTable
  else if decide (name = vss_name db) then Some VssTable
  else None.

Definition columns_of (t : table_ref) : list string :=
  match t with
  | NodeTable => ["rowid"; "id"; "node_text"; "metadata"; "node_id"; "doc_id"]
  | VssTable => ["rowid"; "embedding"]
  end.

Definition placeholders (q : sql) : nat :=
  match q with
  | Insert _ _ (Some n) => n
  | Insert _ _ None => 0
  | Delete _ _ => 1
  | From _ _ => 1
  end.

(** Identities of the rows of [t] that satisfy [p]; [None] when the text
    names a table or a column that does not exist. *)
Fixpoint select_ids (db : database) (t : table_ref) (p : predicate) (v : value) : option (list Z) :=
  match p with
  | DocIdEq =>
      match t with
      | NodeTable =>
          (* a comparison with NULL holds of no row *)
          Some (map id (filter (fun r => doc_id r = v ∧ v ≠ VNone) (node_rows db)))
      | VssTable => None
      end
  | RowidIn table' p' =>
      match resolve db table' with
      | Some NodeTable =>
          match select_ids db NodeTable p' v with
          | Some inner =>
              Some (filter (fun i => i ∈ inner)
                      (match t with
                       | NodeTable => map id (node_rows db)
                       | VssTable => map rowid (vss_rows db)
                       end))
          | None => None
          end
      | _ => None
      end
  end.

(** Value bound to column [c] by [insert into t(cols) values (?, ...)]. *)
Fixpoint column_value (cols : list string) (vs : list value) (c : string) : value :=
  match cols, vs with
  | c' :: cols', v :: vs' => if decide (c' = c) then v else column_value cols' vs' c
  | _, _ => VNone
  end.

Definition set_node_rows (db : database) (rows : list node_row) (seq : Z) : database :=
  {| node_name := node_name db; vss_name := vss_name db;
     node_rows := rows; node_seq := seq; vss_rows := vss_rows db |}.

Definition set_vss_rows (db : database) (rows : list vss_row) : database :=
  {| node_name := node_name db; vss_name := vss_name db;
     node_rows := node_rows db; node_seq := node_seq db; vss_rows := rows |}.

Definition explicit_rowid (t : table_ref) (cols : list string) (vs : list value) : option Z :=
  match column_value cols vs "rowid" with
  | VInt k => Some k
  | _ =>
      match t, column_value cols vs "id" with
      | NodeTable, VInt k => Some k
      | _, _ => None
      end
  end.

Definition next_rowid (l : list Z) : Z := foldr Z.max 0 l + 1.

(** One INSERT, after parsing and binding.  Returns the new database and
    the row identity it assigned. *)
Definition insert_row (db : database) (t : table_ref) (cols : list string) (vs : list value)
  : outcome (database * Z) :=
  match t with
  | NodeTable =>
      let rid := match explicit_rowid t cols vs with
                 | Some k => k
                 | None => Z.max (node_seq db) (foldr Z.max 0 (map id (node_rows db))) + 1
                 end in
      if decide (rid ∈ map id (node_rows db)) then Raise IntegrityError
      else if decide (column_value cols vs "node_text" = VNone) then Raise IntegrityError
      else Ok (set_node_rows db
                 (node_rows db ++
                    [{| id := rid;
                        node_text := column_value cols vs "node_text";
                        metadata := column_value cols vs "metadata";
                        node_id := column_value cols vs "node_id";
                        doc_id := column_value cols vs "doc_id" |}])
                 (Z.max (node_seq db) rid), rid)
  | VssTable =>
      let rid := match explicit_rowid t cols vs with
                 | Some k => k
                 | None => next_rowid (map rowid (vss_rows db))
                 end in
      if decide (rid ∈ map rowid (vss_rows db)) then Raise IntegrityError
      else
        match column_value cols vs "embedding" with
        | VBytes b =>
            if decide (length b = (4 * dimension)%nat)
            then Ok (set_vss_rows db
                       (vss_rows db ++ [{| rowid := rid; vss_embedding := VBytes b |}]), rid)
            else Raise OperationalError
        | _ => Raise OperationalError
        end
  end.

Definition is_dict (v : value) : bool :=
  match v with VDict _ => true | _ => false end.

(** The environment of the class: platform and driver. *)
Record environment := {
  big_endian : bool;
  cursor_context_manager : bool;
  adapts_dict : bool }.

(** Binding of the parameters: their number must be that of the [?] of
    the statement, and each must have a type the driver can bind. *)
Definition bind_parameters (env : environment) (q : sql) (vs : list value) : outcome unit :=
  if decide (length vs = placeholders q) then
    if existsb is_dict vs && negb (adapts_dict env) then Raise ProgrammingError
    else Ok tt
  else Raise ProgrammingError.

(** [run env db q vs]: prepare [q] (syntax, names), bind [vs], step.
    A statement that fails changes nothing. *)
Definition run (env : environment) (db : database) (q : sql) (vs : list value)
  : outcome (database * option Z) :=
  match q with
  | Insert _ _ None => Raise OperationalError
  | Insert table cols (Some n) =>
      match resolve db table with
      | None => Raise OperationalError
      | Some t =>
          if decide (cols ⊆ columns_of t) then
            if decide (length cols = n) then
              match bind_parameters env q vs with
              | Raise e => Raise e
              | Ok _ =>
                  match insert_row db t cols vs with
                  | Ok (db', rid) => Ok (db', Some rid)
                  | Raise e => Raise e
                  end
              end
            else Raise OperationalError
          else Raise OperationalError
      end
  | Delete table cond =>
      match resolve db table with
      | None => Raise OperationalError
      | Some t =>
          match select_ids db t cond VNone with
          | None => Raise OperationalError
          | Some _ =>
              match bind_parameters env q vs with
              | Raise e => Raise e
              | Ok _ =>
                  match select_ids db t cond (nth 0 vs VNone) with
                  | None => Raise OperationalError
                  | Some gone =>
                      Ok (match t with
                          | NodeTable =>
                              set_node_rows db
                                (filter (fun r => id r ∉ gone) (node_rows db)) (node_seq db)
                          | VssTable =>
                              set_vss_rows db (filter (fun r => rowid r ∉ gone) (vss_rows db))
                          end, None)
                  end
              end
          end
      end
  | From _ _ => Raise OperationalError
  end.

(** ** The embedding codec *)

(** [(float)x] of C: to nearest, ties to even; beyond the range, infinity. *)
Definition to_single (x : float) : spec_float :=
  match x with
  | S754_finite s m e => binary_normalize 24 128 (cond_Zopp s (Zpos m)) e s
  | _ => x
  end.

Definition sign_bit (s : bool) : Z := if s then 2 ^ 31 else 0.

(** The 32 bits of a binary32 value: sign, eight bits of biased exponent,
    twenty-three bits of fraction. *)
Definition single_bits (y : spec_float) : Z :=
  match y with
  | S754_zero s => sign_bit s
  | S754_infinity s => sign_bit s + 255 * 2 ^ 23
  | S754_nan => 255 * 2 ^ 23 + 2 ^ 22
  | S754_finite s m e =>
      if Zpos m <? 2 ^ 23 then sign_bit s + Zpos m
      else sign_bit s + (e + 150) * 2 ^ 23 + (Zpos m - 2 ^ 23)
  end.

Definition byte_of (z : Z) : Byte.byte :=
  match Byte.of_N (Z.to_N (z mod 256)) with
  | Some b => b
  | None => x00
  end.

(** The four bytes of a 32-bit word in the byte order of the platform. *)
Definition word_bytes (big : bool) (w : Z) : bytes :=
  let little := [byte_of w; byte_of (w / 2 ^ 8); byte_of (w / 2 ^ 16); byte_of (w / 2 ^ 24)] in
  if big then rev little else little.

(** One item of format [f], native size and byte order. *)
Definition pack_f (env : environment) (x : float) : bytes :=
  word_bytes (big_endian env) (single_bits (to_single x)).

(** [struct.pack('<count>f', *xs)] *)
Definition struct_pack (env : environment) (count : nat) (xs : list float) : outcome bytes :=
  if decide (count = length xs) then Ok (concat (map (pack_f env) xs))
  else Raise StructError.

(** ** Objects passed to the methods of the class *)

Record result_row := {
  res_node_id : value;
  res_node_text : value;
  res_metadata : value;
  res_doc_id : value;
  res_distance : value }.

Inductive object :=
  | Self
  | Floats (xs : list float)
  | Rows (rs : list result_row)
  | Text (q : select_text)
  | Params (ps : parameters).

(** [def _embedding_to_db(ebbedding)]: one parameter, no [self].
    A call binds its positional arguments to the parameters and raises
    TypeError when their numbers differ; [len] of the store instance
    raises TypeError too. *)
Definition _embedding_to_db (env : environment) (args : list object) : outcome bytes :=
  match args with
  | [ebbedding] =>
      match ebbedding with
      | Floats xs => struct_pack env (length xs) xs
      | _ => Raise TypeError
      end
  | _ => Raise TypeError
  end.

(** [l.append(...)]: exactly one argument. *)
Definition append {A} (l : list A) (args : list A) : outcome (list A) :=
  match args with
  | [x] => Ok (l ++ [x])
  | _ => Raise TypeError
  end.

(** [l.append[...]]: a bound method is not subscriptable. *)
Definition append_subscript {A} (l : list A) (key : A) : outcome (list A) :=
  Raise TypeError.

(** [d[key]] *)
Definition getitem (d : document) (key : string) : outcome string :=
  match d !! key with
  | Some v => Ok v
  | None => Raise KeyError
  end.

(** ** The connection *)

Inductive call :=
  | Cursor
  | Execute (q : sql) (ps : parameters)
  | Fetchall
  | Commit
  | Close.

(** [committed] is what is durable; [working] is what the connection sees,
    the committed rows and the changes of the open transaction; [trace]
    lists, oldest first, the calls made on the connection and its cursors,
    each with the working database it left. *)
Record connection := {
  closed : bool;
  committed : database;
  working : database;
  trace : list (call * database) }.

Record cursor := {
  lastrowid : value;
  fetched : list result_row }.

Record SqliteVectorStore := {
  connection_string : string;
  async_connection_string : string;
  node_table_name : string;
  vss_table_name : string;
  con : connection }.

Definition Py (A : Type) : Type := M SqliteVectorStore A.

Definition set_con (self : SqliteVectorStore) (c : connection) : SqliteVectorStore :=
  {| connection_string := connection_string self;
     async_connection_string := async_connection_string self;
     node_table_name := node_table_name self;
     vss_table_name := vss_table_name self;
     con := c |}.

Definition record (c : call) (cn : connection) : connection :=
  {| closed := closed cn; committed := committed cn; working := working cn;
     trace := trace cn ++ [(c, working cn)] |}.

Definition set_working (cn : connection) (db : database) : connection :=
  {| closed := closed cn; committed := committed cn; working := db; trace := trace cn |}.

(** [self.con.cursor()] *)
Definition con_cursor : Py cursor :=
  fun self =>
    let cn := record Cursor (con self) in
    if closed cn then (Raise ProgrammingError, set_con self cn)
    else (Ok {| lastrowid := VNone; fetched := [] |}, set_con self cn).

(** Entry of [with ... as cx]: the cursor must be a context manager.  Its
    exit, on the normal and on the exceptional path, closes the cursor
    and lets the exception through. *)
Definition enter (env : environment) (cx : cursor) : Py cursor :=
  if cursor_context_manager env then ret cx else raise TypeError.

(** [cx.execute(q, ps)] *)
Definition cx_execute (env : environment) (cx : cursor) (q : sql) (ps : parameters) : Py cursor :=
  fun self =>
    let cn := con self in
    if closed cn then (Raise ProgrammingError, set_con self (record (Execute q ps) cn))
    else
      match run env (working cn) q (bindings ps) with
      | Ok (db', rid) =>
          (Ok {| lastrowid := match rid with Some k => VInt k | None => lastrowid cx end;
                 fetched := [] |},
           set_con self (record (Execute q ps) (set_working cn db')))
      | Raise e => (Raise e, set_con self (record (Execute q ps) cn))
      end.

(** [cx.fetchall(...)]: no argument; the rows left by the last statement. *)
Definition cx_fetchall (cx : cursor) (args : list object) : Py (list result_row) :=
  match args with
  | [] => fun self => (Ok (fetched cx), set_con self (record Fetchall (con self)))
  | _ => raise TypeError
  end.

(** [cx.close()] *)
Definition cx_close (cx : cursor) : Py unit := ret tt.

(** [self.con.commit()] *)
Definition con_commit : Py unit :=
  fun self =>
    let cn := con self in
    if closed cn then (Raise ProgrammingError, set_con self (record Commit cn))
    else
      (Ok tt,
       set_con self
         (record Commit
            {| closed := false; committed := working cn; working := working cn;
               trace := trace cn |})).

(** [self.con.close()]: the open transaction is lost. *)
Definition con_close : Py unit :=
  fun self =>
    let cn := con self in
    (Ok tt,
     set_con self
       (record Close
          {| closed := true; committed := committed cn; working := committed cn;
             trace := trace cn |})).

(** ** The class *)

Definition stores_text : bool := true.
Definition flat_metadata : bool := false.

Fixpoint lower (s : string) : string :=
  match s with
  | EmptyString => EmptyString
  | String c s' =>
      let n := nat_of_ascii c in
      String (if (65 <=? n)%nat && (n <=? 90)%nat then ascii_of_nat (n + 32) else c) (lower s')
  end.

Definition empty_database (node_table vss_table : string) : database :=
  {| node_name := node_table; vss_name := vss_table;
     node_rows := []; node_seq := 0; vss_rows := [] |}.

(** A store in the Ready state over a new database: the names as lines
    32-34 compute them, the connection open, the two tables created and
    empty.  The bootstrap itself (lines 35-37) is not part of the model. *)
Definition ready (connection_string async_connection_string table_name : string)
  : SqliteVectorStore :=
  let lower_name := lower table_name in
  let db := empty_database (lower_name +:+ "_data") (lower_name +:+ "_vss") in
  {| connection_string := connection_string;
     async_connection_string := async_connection_string;
     node_table_name := lower_name +:+ "_data";
     vss_table_name := lower_name +:+ "_vss";
     con := {| closed := false; committed := db; working := db; trace := [] |} |}.

Section Store.

Variable env : environment.

(** The metadata codec of [llama_index.vector_stores.utils]. *)
Variable node_to_metadata_dict : TextNode -> bool -> bool -> document.
Variable metadata_dict_to_node : document -> TextNode.

(** [async def close(self)], awaited. *)
Definition close : Py unit := con_close.

(** The body of the loop of [add] (lines 72-83).  [result.node.id] and
    [result.id] both read the identifier of the node.  Python evaluates
    the arguments of a call before the call: [metadata['doc_id']] before
    the first [execute], [self._embedding_to_db(...)] before the second. *)
Definition add_body (result : NodeWithEmbedding) (acc : cursor * list string)
  : Py (cursor * list string) :=
  let '(cx, ids) := acc in
  self <- get ;;
  let metadata := node_to_metadata_dict (node result) true flat_metadata in
  doc <- lift (getitem metadata "doc_id") ;;
  cx <- cx_execute env cx
          (Insert (node_table_name self) ["node_id"; "node_text"; "metadata"; "doc_id"] (Some 4%nat))
          (Tuple [VStr (id_ (node result)); VStr (get_content (node result));
                  VDict metadata; VStr doc]) ;;
  blob <- lift (_embedding_to_db env [Self; Floats (embedding result)]) ;;
  cx <- cx_execute env cx
          (Insert (node_table_name self) ["rowid"; "embedding"] None)
          (Tuple [lastrowid cx; VBytes blob]) ;;
  ret (cx, ids ++ [id_ (node result)]).

(** [add] (lines 68-86); the commit comes after the [with] block. *)
Definition add (embedding_results : list NodeWithEmbedding) : Py (list string) :=
  let ids := [] in
  cx <- con_cursor ;;
  cx <- enter env cx ;;
  acc <- for_each embedding_results add_body (cx, ids) ;;
  cx_close (fst acc) ;;;
  con_commit ;;;
  ret (snd acc).

(** [delete] (lines 93-100).  [(ref_doc_id)] is the string itself, not a
    tuple of one item; the second text starts at FROM. *)
Definition delete (ref_doc_id : string) : Py unit :=
  cx <- con_cursor ;;
  cx <- enter env cx ;;
  self <- get ;;
  cx <- cx_execute env cx
          (Delete (vss_table_name self) (RowidIn (node_table_name self) DocIdEq))
          (Str ref_doc_id) ;;
  cx <- cx_execute env cx (From (node_table_name self) DocIdEq) (Str ref_doc_id) ;;
  cx_close cx ;;;
  con_commit.

(** The body of the loop of [_db_query_to_query_result] (lines 119-123):
    [nodes.append()] has no argument, and the two lines after it subscript
    [append] instead of calling it.  Rows are read by column name. *)
Definition result_body (res : result_row)
    (acc : list TextNode * list value * list value)
  : outcome (list TextNode * list value * list value) :=
  let '(nodes, similarities, ids) := acc in
  match res_metadata res with
  | VDict d =>
      let node := metadata_dict_to_node d in
      let node := set_content node
                    (match res_node_text res with VStr s => s | _ => "" end) in
      match append nodes [] with
      | Raise e => Raise e
      | Ok nodes =>
          match append_subscript similarities (res_distance res) with
          | Raise e => Raise e
          | Ok similarities =>
              match append_subscript ids (res_node_id res) with
              | Raise e => Raise e
              | Ok ids => Ok (nodes, similarities, ids)
              end
          end
      end
  | _ => Raise TypeError
  end.

Fixpoint result_loop (db_results : list result_row)
    (acc : list TextNode * list value * list value)
  : outcome (list TextNode * list value * list value) :=
  match db_results with
  | [] => Ok acc
  | res :: rest =>
      match result_body res acc with
      | Ok acc' => result_loop rest acc'
      | Raise e => Raise e
      end
  end.

(** [def _db_query_to_query_result(db_results)]: one parameter, no [self]. *)
Definition _db_query_to_query_result (args : list object) : outcome VectorStoreQueryResult :=
  match args with
  | [db_results] =>
      match db_results with
      | Rows rs =>
          match result_loop rs ([], [], []) with
          | Ok (nodes, similarities, ids) =>
              Ok {| nodes := nodes; similarities := similarities; ids := ids |}
          | Raise e => Raise e
          end
      | _ => Raise TypeError
      end
  | _ => Raise TypeError
  end.

(** [query] (lines 102-111): no [with] here; the text and the parameters
    go to [fetchall]. *)
Definition query (query : VectorStoreQuery) : Py VectorStoreQueryResult :=
  cx <- con_cursor ;;
  self <- get ;;
  blob <- lift (_embedding_to_db env [Self; Floats (query_embedding query)]) ;;
  results <- cx_fetchall cx
               [Text {| sel_node_table := node_table_name self; sel_vss_table := "vss_lookup" |};
                Params (Tuple [VBytes blob; VInt (similarity_top_k query)])] ;;
  lift (_db_query_to_query_result [Self; Rows results]).

End Store.

(** ** Decoding *)

(** Modelled from the spec: [decode] of the Embedding Codec, which the
    source does not have (it never reads an embedding back).  The spec
    makes it the inverse of the encoder: one native-endian IEEE-754
    single-precision value per four bytes, in order, and [CorruptBuffer]
    when the length is not a multiple of the element width.  The values
    come back as Python floats, as [struct.unpack] gives them. *)
Definition bits_single (w : Z) : spec_float :=
  let s := 2 ^ 31 <=? w in
  let exponent := (w / 2 ^ 23) mod 256 in
  let fraction := w mod 2 ^ 23 in
  if exponent =? 0 then
    if fraction =? 0 then S754_zero s else S754_finite s (Z.to_pos fraction) (-149)
  else if exponent =? 255 then
    if fraction =? 0 then S754_infinity s else S754_nan
  else S754_finite s (Z.to_pos (fraction + 2 ^ 23)) (exponent - 150).

(** Modelled from the spec: the value of a single-precision number as a
    Python float, which is exact ([decode] returns floats). *)
Definition to_double (y : spec_float) : float :=
  match y with
  | S754_finite s m e => binary_normalize 53 1024 (cond_Zopp s (Zpos m)) e s
  | _ => y
  end.

Definition byte_val (b : Byte.byte) : Z := Z.of_N (Byte.to_N b).

(** Modelled from the spec: four bytes read as a 32-bit word in the byte
    order of the platform ("native-endian"). *)
Definition bytes_word (big : bool) (b0 b1 b2 b3 : Byte.byte) : Z :=
  if big
  then byte_val b3 + 2 ^ 8 * byte_val b2 + 2 ^ 16 * byte_val b1 + 2 ^ 24 * byte_val b0
  else byte_val b0 + 2 ^ 8 * byte_val b1 + 2 ^ 16 * byte_val b2 + 2 ^ 24 * byte_val b3.

(** Modelled from the spec: one element of [decode]. *)
Definition unpack_f (env : environment) (b0 b1 b2 b3 : Byte.byte) : float :=
  to_double (bits_single (bytes_word (big_endian env) b0 b1 b2 b3)).

(** Modelled from the spec: [decode(bytes) -> sequence of float], the
    inverse of the encoder; [CorruptBuffer] when the length is not a
    multiple of four. *)
Fixpoint decode (env : environment) (b : bytes) : outcome (list float) :=
  match b with
  | [] => Ok []
  | b0 :: b1 :: b2 :: b3 :: rest =>
      match decode env rest with
      | Ok xs => Ok (unpack_f env b0 b1 b2 b3 :: xs)
      | Raise e => Raise e
      end
  | _ => Raise CorruptBuffer
  end.

(** A binary32 number: a value of the single-precision format other than
    a NaN. *)
Definition single_number (y : spec_float) : Prop :=
  valid_binary 24 128 y = true ∧ y ≠ S754_nan.

(** ** Observations on a store *)

Definition record_ids (db : database) : gset Z := list_to_set (map id (node_rows db)).

Definition index_ids (db : database) : gset Z := list_to_set (map rowid (vss_rows db)).

(** Every entry of the vector index has its record. *)
Definition no_orphan (db : database) : Prop := index_ids db ⊆ record_ids db.

(** Along a trace that starts from [before]: an identity that enters the
    vector index at some call already had its record before that call. *)
Fixpoint record_first (before : database) (tr : list (call * database)) : Prop :=
  match tr with
  | [] => True
  | (_, after) :: tr' =>
      index_ids after ∖ index_ids before ⊆ record_ids before ∧ record_first after tr'
  end.

Definition calls (tr : list (call * database)) : list call := map fst tr.

(** ** Sample data *)

(** A driver whose cursors are context managers and which binds a dict
    (through an adapter), on a little-endian machine. *)
Definition permissive : environment :=
  {| big_endian := false; cursor_context_manager := true; adapts_dict := true |}.

(** The stock [sqlite3] module on a little-endian machine. *)
Definition stock : environment :=
  {| big_endian := false; cursor_context_manager := false; adapts_dict := false |}.

(** A metadata codec that keeps the node's own entries and records the
    owning document under [doc_id], as the spec requires of it. *)
Definition sample_to_dict (n : TextNode) (remove_text flat : bool) : document :=
  <["doc_id" := default "None" (extra n !! "ref_doc_id")]> (extra n).

Definition sample_to_node (d : document) : TextNode :=
  {| id_ := default "" (d !! "id"); text := ""; extra := d |}.

Definition f_zero : float := S754_zero false.
Definition f_one : float := S754_finite false 4503599627370496 (-52).
(** The float nearest to one tenth: 0x3FB999999999999A. *)
Definition f_tenth : float := S754_finite false 7205759403792794 (-56).

Definition node_a : NodeWithEmbedding :=
  {| node := {| id_ := "a"; text := "alpha"; extra := {["ref_doc_id" := "d1"]} |};
     embedding := f_one :: repeat f_zero 1535 |}.


Definition sample_query : VectorStoreQuery :=
  {| query_embedding := f_one :: repeat f_zero 1535; similarity_top_k := 2 |}.

Definition sample_row : result_row :=
  {| res_node_id := VStr "a"; res_node_text := VStr "alpha";
     res_metadata := VDict {["doc_id" := "d1"]}; res_doc_id := VStr "d1";
     res_distance := VFloat f_zero |}.

Definition new_store : SqliteVectorStore := ready ":memory:" ":memory:" "Docs".

(** A store that holds one node in both tables, committed. *)
Definition stored_db : database :=
  {| node_name := "docs_data"; vss_name := "docs_vss";
     node_rows := [{| id := 1; node_text := VStr "alpha"; metadata := VNone;
                      node_id := VStr "a"; doc_id := VStr "d1" |}];
     node_seq := 1;
     vss_rows := [{| rowid := 1; vss_embedding := VBytes (repeat x00 (4 * dimension)) |}] |}.

Definition stored_store : SqliteVectorStore :=
  {| connection_string := ":memory:"; async_connection_string := ":memory:";
     node_table_name := "docs_data"; vss_table_name := "docs_vss";
     con := {| closed := false; committed := stored_db; working := stored_db; trace := [] |} |}.

(** ** Relations between the state before and after a computation *)

Definition respects {S A} (R : S -> S -> Prop) (m : M S A) : Prop :=
  forall s, R s (snd (m s)).

(** Nothing is committed: the connection is as open as it was, the
    committed database is the same, and no [Commit] was called. *)
Definition quiet (s s' : SqliteVectorStore) : Prop :=
  closed (con s') = closed (con s) /\
  committed (con s') = committed (con s) /\
  exists new, trace (con s') = trace (con s) ++ new /\ Commit ∉ calls new.

(** The vector index is not written and no record is lost, at any call. *)
Definition index_kept (s s' : SqliteVectorStore) : Prop :=
  vss_rows (working (con s')) = vss_rows (working (con s)) /\
  record_ids (working (con s)) ⊆ record_ids (working (con s')) /\
  exists new, trace (con s') = trace (con s) ++ new /\
    Forall (fun c => vss_rows (snd c) = vss_rows (working (con s)) /\
                     record_ids (working (con s)) ⊆ record_ids (snd c)) new.

(** The [with] block of [add]: what precedes [cx.close()] and the commit. *)
Definition add_loop (env : environment)
    (node_to_metadata_dict : TextNode -> bool -> bool -> document)
    (embedding_results : list NodeWithEmbedding)
  : Py (cursor * list string) :=
  cx <- con_cursor ;;
  cx <- enter env cx ;;
  for_each embedding_results (add_body env node_to_metadata_dict) (cx, []).

(** The [with] block of [delete]. *)
Definition delete_statements (env : environment) (ref_doc_id : string) : Py cursor :=
  cx <- con_cursor ;;
  cx <- enter env cx ;;
  self <- get ;;
  cx <- cx_execute env cx
          (Delete (vss_table_name self) (RowidIn (node_table_name self) DocIdEq))
          (Str ref_doc_id) ;;
  cx_execute env cx (From (node_table_name self) DocIdEq) (Str ref_doc_id).



(** ** Stores whose names are those of their tables *)

(** The two names of [self] are the names of the two tables of the open
    transaction, and they differ.  [__init__] establishes this (see
    [ready]). *)
Definition well_formed (s : SqliteVectorStore) : Prop :=
  node_table_name s = node_name (working (con s)) /\
  vss_table_name s = vss_name (working (con s)) /\
  node_name (working (con s)) <> vss_name (working (con s)).

(** The names under which [delete] reaches the index, in the open
    transaction and in what is committed. *)
Definition index_named (s : SqliteVectorStore) : Prop :=
  vss_table_name s = vss_name (working (con s)) /\
  node_name (working (con s)) <> vss_name (working (con s)) /\
  node_name (committed (con s)) = node_name (working (con s)) /\
  vss_name (committed (con s)) = vss_name (working (con s)).

Definition same_names (s s' : SqliteVectorStore) : Prop :=
  vss_table_name s' = vss_table_name s /\
  node_name (working (con s')) = node_name (working (con s)) /\
  vss_name (working (con s')) = vss_name (working (con s)).

(** The record table only grows, by one row with a new identity at most. *)
Definition appended (s s' : SqliteVectorStore) : Prop :=
  exists extra,
    node_rows (working (con s')) = node_rows (working (con s)) ++ extra /\
    (length extra <= 1)%nat /\
    Forall (fun row => id row ∉ map id (node_rows (working (con s)))) extra.


(** ** Sequences of calls *)

Inductive operation :=
  | CallAdd (embedding_results : list NodeWithEmbedding)
  | CallDelete (ref_doc_id : string)
  | CallQuery (q : VectorStoreQuery)
  | CallClose.

(** The store after one call, whether the call returned or raised. *)
Definition after (env : environment)
    (to_dict : TextNode -> bool -> bool -> document) (to_node : document -> TextNode)
    (s : SqliteVectorStore) (op : operation) : SqliteVectorStore :=
  match op with
  | CallAdd rs => snd (add env to_dict rs s)
  | CallDelete d => snd (delete env d s)
  | CallQuery q => snd (query env to_node q s)
  | CallClose => snd (close s)
  end.

Definition after_all (env : environment)
    (to_dict : TextNode -> bool -> bool -> document) (to_node : document -> TextNode)
    (ops : list operation) (s : SqliteVectorStore) : SqliteVectorStore :=
  fold_left (after env to_dict to_node) ops s.

(** Index entries of the store, uncommitted or committed. *)
Definition indexed (s : SqliteVectorStore) (e : vss_row) : Prop :=
  e ∈ vss_rows (working (con s)) \/ e ∈ vss_rows (committed (con s)).

(** Every row of [rows] is there, committed and in the open transaction. *)
Definition holds (rows : list node_row) (s : SqliteVectorStore) : Prop :=
  index_named s /\
  forall row, row ∈ rows ->
    row ∈ node_rows (committed (con s)) /\ row ∈ node_rows (working (con s)).

(** ** More sample data *)

(** A metadata codec that records no owning document. *)
Definition bare_to_dict (n : TextNode) (remove_text flat : bool) : document := extra n.

Definition node_bare : NodeWithEmbedding :=
  {| node := {| id_ := "b"; text := "bare"; extra := ∅ |};
     embedding := f_one :: repeat f_zero 1535 |}.

(** Two nodes of two documents, both indexed. *)
Definition two_documents_db : database :=
  {| node_name := "docs_data"; vss_name := "docs_vss";
     node_rows := [{| id := 1; node_text := VStr "alpha"; metadata := VNone;
                      node_id := VStr "a"; doc_id := VStr "d" |};
                   {| id := 2; node_text := VStr "beta"; metadata := VNone;
                      node_id := VStr "b"; doc_id := VStr "e" |}];
     node_seq := 2;
     vss_rows := [{| rowid := 1; vss_embedding := VBytes (repeat x00 (4 * dimension)) |};
                  {| rowid := 2; vss_embedding := VBytes (repeat x00 (4 * dimension)) |}] |}.

Definition two_documents_store : SqliteVectorStore :=
  {| connection_string := ":memory:"; async_connection_string := ":memory:";
     node_table_name := "docs_data"; vss_table_name := "docs_vss";
     con := {| closed := false; committed := two_documents_db;
               working := two_documents_db; trace := [] |} |}.

(** * Properties *)

(** ** The monad *)

Section Respects.

Context {S : Type} (R : S -> S -> Prop).
Hypothesis R_refl : forall s, R s s.
Hypothesis R_trans : forall s1 s2 s3, R s1 s2 -> R s2 s3 -> R s1 s3.

Lemma respects_ret {A} (a : A) : respects R (ret a).
Proof. intros s. apply R_refl. Qed.

Lemma respects_raise {A} (e : exn) : respects R (@raise S A e).
Proof. intros s. apply R_refl. Qed.

Lemma respects_lift {A} (o : outcome A) : respects R (lift o).
Proof. intros s. apply R_refl. Qed.

Lemma respects_get : respects R get.
Proof. intros s. apply R_refl. Qed.

Lemma respects_bind {A B} (m : M S A) (k : A -> M S B) :
  respects R m -> (forall a, respects R (k a)) -> respects R (bind m k).
Proof.
  intros Hm Hk s. unfold bind. specialize (Hm s).
  destruct (m s) as [[a|e] s1]; simpl in *; [|assumption].
  eapply R_trans; [eassumption|]. apply Hk.
Qed.

Lemma for_each_cons {A B} (body : A -> B -> M S B) x xs acc s :
  for_each (x :: xs) body acc s =
    match body x acc s with
    | (Ok acc', s') => for_each xs body acc' s'
    | (Raise e, s') => (Raise e, s')
    end.
Proof. reflexivity. Qed.

Lemma respects_for_each {A B} (body : A -> B -> M S B) (xs : list A) :
  (forall x acc, respects R (body x acc)) ->
  forall acc, respects R (for_each xs body acc).
Proof.
  intros Hbody. induction xs as [|x xs IH]; intros acc; simpl.
  - apply respects_ret.
  - apply respects_bind; [apply Hbody|]. intros acc'. apply IH.
Qed.

End Respects.

Lemma quiet_refl s : quiet s s.
Proof.
  repeat split. exists []. rewrite app_nil_r. split; [reflexivity|].
  unfold calls; simpl. apply not_elem_of_nil.
Qed.

Lemma quiet_trans s1 s2 s3 : quiet s1 s2 -> quiet s2 s3 -> quiet s1 s3.
Proof.
  intros (Hc1 & Hd1 & n1 & Ht1 & Hn1) (Hc2 & Hd2 & n2 & Ht2 & Hn2).
  repeat split; [congruence | congruence |].
  exists (n1 ++ n2). split.
  - rewrite Ht2, Ht1. symmetry. apply app_assoc.
  - unfold calls in *. rewrite map_app. rewrite elem_of_app. tauto.
Qed.

Lemma index_kept_refl s : index_kept s s.
Proof.
  repeat split; [reflexivity|]. exists []. rewrite app_nil_r. split; [reflexivity|].
  constructor.
Qed.

Lemma index_kept_trans s1 s2 s3 : index_kept s1 s2 -> index_kept s2 s3 -> index_kept s1 s3.
Proof.
  intros (Hv1 & Hr1 & n1 & Ht1 & Hn1) (Hv2 & Hr2 & n2 & Ht2 & Hn2).
  split; [congruence|]. split; [set_solver|].
  exists (n1 ++ n2). split.
  - rewrite Ht2, Ht1. symmetry. apply app_assoc.
  - apply Forall_app. split; [assumption|].
    eapply Forall_impl; [exact Hn2|]. intros c [Hcv Hcr]. split; [congruence|set_solver].
Qed.

(** ** The engine *)

Lemma run_insert_without_values env db table cols vs :
  run env db (Insert table cols None) vs = Raise OperationalError.
Proof. reflexivity. Qed.

Lemma run_from env db table cond vs :
  run env db (From table cond) vs = Raise OperationalError.
Proof. reflexivity. Qed.

Lemma record_ids_app db rows seq :
  record_ids db ⊆ record_ids (set_node_rows db (node_rows db ++ rows) seq).
Proof.
  unfold record_ids; simpl. rewrite map_app, list_to_set_app_L. set_solver.
Qed.

(** The insert of line 75 writes the record table or nothing: its columns
    are not columns of the virtual table. *)
Lemma run_record_insert env db table vs db' rid :
  run env db (Insert table ["node_id"; "node_text"; "metadata"; "doc_id"] (Some 4%nat)) vs
    = Ok (db', rid) ->
  vss_rows db' = vss_rows db /\ record_ids db ⊆ record_ids db'.
Proof.
  unfold run. destruct (resolve db table) as [[|]|]; [| |discriminate].
  - destruct (decide _); [|discriminate].
    destruct (decide _); [|discriminate].
    destruct (bind_parameters _ _ _); [|discriminate].
    unfold insert_row.
    destruct (decide _); [discriminate|].
    destruct (decide _); [discriminate|].
    intros [= <- <-]. split; [reflexivity|]. apply record_ids_app.
  - destruct (decide _) as [Hsub|]; [|discriminate].
    exfalso. assert (Hin : "node_id" ∈ columns_of VssTable) by (apply Hsub; constructor).
    simpl in Hin. set_solver.
Qed.

(** ** The connection *)

(** One call other than [Commit]. *)
Lemma quiet_call s s' c db :
  closed (con s') = closed (con s) ->
  committed (con s') = committed (con s) ->
  trace (con s') = trace (con s) ++ [(c, db)] ->
  c <> Commit ->
  quiet s s'.
Proof.
  intros Hc Hd Ht Hne. split; [exact Hc|]. split; [exact Hd|].
  exists [(c, db)]. split; [exact Ht|].
  unfold calls; simpl. intros Hin. apply list_elem_of_singleton in Hin. congruence.
Qed.

Lemma con_cursor_quiet : respects quiet con_cursor.
Proof.
  intros s. unfold con_cursor. simpl.
  destruct (closed (con s)) eqn:Hc; simpl;
    (eapply quiet_call; simpl; [congruence|reflexivity|reflexivity|discriminate]).
Qed.

(** A call that changes no table. *)
Lemma record_index_kept s c :
  index_kept s (set_con s (record c (con s))).
Proof.
  split; [reflexivity|]. split; [reflexivity|].
  exists [(c, working (con s))]. split; [reflexivity|].
  constructor; [|constructor]. split; reflexivity.
Qed.

Lemma con_cursor_index_kept : respects index_kept con_cursor.
Proof.
  intros s. unfold con_cursor. simpl.
  destruct (closed (con s)); apply record_index_kept.
Qed.

Lemma con_cursor_ok s cx s' :
  con_cursor s = (Ok cx, s') -> closed (con s) = false /\ closed (con s') = false.
Proof.
  unfold con_cursor. simpl. destruct (closed (con s)) eqn:E; [discriminate|].
  intros [= <- <-]. simpl. auto.
Qed.

Lemma enter_respects {R : SqliteVectorStore -> SqliteVectorStore -> Prop} env cx :
  (forall s, R s s) -> respects R (enter env cx).
Proof.
  intros HR. unfold enter. destruct (cursor_context_manager env).
  - apply respects_ret, HR.
  - apply respects_raise, HR.
Qed.

Lemma cx_execute_quiet env cx q ps : respects quiet (cx_execute env cx q ps).
Proof.
  intros s. unfold cx_execute.
  destruct (closed (con s)) eqn:Hc; simpl.
  - eapply quiet_call; simpl; [congruence|reflexivity|reflexivity|discriminate].
  - destruct (run env (working (con s)) q (bindings ps)) as [[db' rid]|e]; simpl;
      (eapply quiet_call; simpl; [congruence|reflexivity|reflexivity|discriminate]).
Qed.

Lemma cx_execute_record_insert_index_kept env cx table ps :
  respects index_kept
    (cx_execute env cx
       (Insert table ["node_id"; "node_text"; "metadata"; "doc_id"] (Some 4%nat)) ps).
Proof.
  intros s. unfold cx_execute.
  destruct (closed (con s)); [apply record_index_kept|].
  destruct (run env (working (con s))
              (Insert table ["node_id"; "node_text"; "metadata"; "doc_id"] (Some 4%nat))
              (bindings ps)) as [[db' rid]|e] eqn:Hrun;
    [|apply record_index_kept].
  cbn [snd].
  apply run_record_insert in Hrun as [Hv Hr].
  split; [exact Hv|]. split; [exact Hr|].
  eexists. split; [reflexivity|]. constructor; [|constructor]. split; assumption.
Qed.

Lemma cx_execute_insert_without_values_index_kept env cx table cols ps :
  respects index_kept (cx_execute env cx (Insert table cols None) ps).
Proof.
  intros s. unfold cx_execute.
  destruct (closed (con s)); simpl; apply record_index_kept.
Qed.

Lemma con_commit_index_kept : respects index_kept con_commit.
Proof.
  intros s. unfold con_commit.
  destruct (closed (con s)); simpl; [apply record_index_kept|].
  split; [reflexivity|]. split; [reflexivity|].
  eexists. split; [reflexivity|]. constructor; [|constructor]. split; reflexivity.
Qed.

(** ** [add] *)

Section Add.

Variable env : environment.
Variable node_to_metadata_dict : TextNode -> bool -> bool -> document.

Notation add_body := (add_body env node_to_metadata_dict).
Notation add := (add env node_to_metadata_dict).
Notation add_loop := (add_loop env node_to_metadata_dict).

(** The call on line 82 passes two arguments to a function of one. *)
Lemma bound_embedding_to_db_raises xs :
  _embedding_to_db env [Self; Floats xs] = Raise TypeError.
Proof. reflexivity. Qed.

(** No iteration of the loop reaches its end. *)
Lemma add_body_raises result acc s :
  exists e, fst (add_body result acc s) = Raise e.
Proof.
  unfold add_body. destruct acc as [cx ids]. unfold bind, get, lift.
  destruct (getitem _ _) as [doc|e]; [|eauto].
  destruct (cx_execute _ _ _ _ s) as [[cx'|e] s1]; [|eauto].
  rewrite bound_embedding_to_db_raises. eauto.
Qed.

Lemma add_body_quiet result acc : respects quiet (add_body result acc).
Proof.
  unfold add_body. destruct acc as [cx ids].
  apply respects_bind; [apply quiet_trans|apply respects_get, quiet_refl|]. intros self.
  apply respects_bind; [apply quiet_trans|apply respects_lift, quiet_refl|]. intros doc.
  apply respects_bind; [apply quiet_trans|apply cx_execute_quiet|]. intros cx1.
  apply respects_bind; [apply quiet_trans|apply respects_lift, quiet_refl|]. intros blob.
  apply respects_bind; [apply quiet_trans|apply cx_execute_quiet|]. intros cx2.
  apply respects_ret, quiet_refl.
Qed.

Lemma add_body_index_kept result acc : respects index_kept (add_body result acc).
Proof.
  unfold add_body. destruct acc as [cx ids].
  apply respects_bind; [apply index_kept_trans|apply respects_get, index_kept_refl|].
  intros self.
  apply respects_bind; [apply index_kept_trans|apply respects_lift, index_kept_refl|].
  intros doc.
  apply respects_bind;
    [apply index_kept_trans|apply cx_execute_record_insert_index_kept|]. intros cx1.
  apply respects_bind; [apply index_kept_trans|apply respects_lift, index_kept_refl|].
  intros blob.
  apply respects_bind;
    [apply index_kept_trans|apply cx_execute_insert_without_values_index_kept|]. intros cx2.
  apply respects_ret, index_kept_refl.
Qed.

Lemma add_unfold embedding_results s :
  add embedding_results s =
    match add_loop embedding_results s with
    | (Ok acc, s') =>
        match con_commit s' with
        | (Ok _, s'') => (Ok (snd acc), s'')
        | (Raise e, s'') => (Raise e, s'')
        end
    | (Raise e, s') => (Raise e, s')
    end.
Proof.
  unfold add, add_loop, bind, cx_close, ret.
  destruct (con_cursor s) as [[cx|e] s1]; [|reflexivity].
  destruct (enter env cx s1) as [[cx'|e] s2]; [|reflexivity].
  destruct (for_each _ _ _ s2) as [[acc|e] s3]; reflexivity.
Qed.

Lemma add_loop_quiet rs : respects quiet (add_loop rs).
Proof.
  unfold add_loop.
  apply respects_bind; [apply quiet_trans|apply con_cursor_quiet|]. intros cx.
  apply respects_bind; [apply quiet_trans|apply enter_respects, quiet_refl|]. intros cx'.
  apply respects_for_each; [apply quiet_refl|apply quiet_trans|]. apply add_body_quiet.
Qed.

Lemma add_loop_index_kept rs : respects index_kept (add_loop rs).
Proof.
  unfold add_loop.
  apply respects_bind; [apply index_kept_trans|apply con_cursor_index_kept|]. intros cx.
  apply respects_bind; [apply index_kept_trans|apply enter_respects, index_kept_refl|].
  intros cx'.
  apply respects_for_each; [apply index_kept_refl|apply index_kept_trans|].
  apply add_body_index_kept.
Qed.

Lemma add_loop_ok rs acc s s' :
  add_loop rs s = (Ok acc, s') -> rs = [] /\ closed (con s') = false.
Proof.
  unfold add_loop, bind. destruct (con_cursor s) as [[cx|e] s1] eqn:Hcur; [|discriminate].
  apply con_cursor_ok in Hcur as [_ Hopen].
  unfold enter. destruct (cursor_context_manager env); [|discriminate].
  unfold ret at 1. destruct rs as [|r rs].
  - intros [= <- <-]. auto.
  - rewrite for_each_cons. destruct (add_body_raises r (cx, []) s1) as [e He].
    destruct (add_body r (cx, []) s1) as [[acc'|e'] s2]; simpl in He;
      [discriminate He|discriminate].
Qed.

Lemma add_index_kept rs : respects index_kept (add rs).
Proof.
  intros s. rewrite add_unfold.
  pose proof (add_loop_index_kept rs s) as Hloop.
  destruct (add_loop rs s) as [[acc|e] s1]; simpl in *; [|assumption].
  pose proof (con_commit_index_kept s1) as Hcommit.
  destruct (con_commit s1) as [[[]|e] s2]; simpl in *;
    eapply index_kept_trans; eassumption.
Qed.

(** A batch that is not empty makes [add] raise, whatever the driver. *)
Lemma add_nonempty_raises r rs s :
  exists e, fst (add (r :: rs) s) = Raise e.
Proof.
  rewrite add_unfold.
  destruct (add_loop (r :: rs) s) as [[acc|e] s1] eqn:Hloop; [|eauto].
  apply add_loop_ok in Hloop as [? _]. discriminate.
Qed.

End Add.

(** ** Which exceptions can be raised *)




















(** What [add] leaves committed: what was committed before, or, when the
    commit of line 85 ran, what the connection then saw. *)
Lemma add_committed env codec rs s :
  let s' := snd (add env codec rs s) in
  committed (con s') = committed (con s) \/ committed (con s') = working (con s').
Proof.
  simpl. rewrite add_unfold.
  pose proof (add_loop_quiet env codec rs s) as (_ & Hd & _).
  destruct (add_loop env codec rs s) as [[acc|e] s1] eqn:Hloop; simpl in *; [|auto].
  apply add_loop_ok in Hloop as [_ Hopen].
  unfold con_commit. rewrite Hopen. simpl. auto.
Qed.

Lemma index_kept_record_first db0 new :
  Forall (fun c : call * database =>
            vss_rows (snd c) = vss_rows db0 /\ record_ids db0 ⊆ record_ids (snd c)) new ->
  forall before, index_ids before = index_ids db0 -> record_first before new.
Proof.
  induction 1 as [|[c after] new [Hv Hr] _ IH]; intros before Hbefore; simpl; [exact I|].
  simpl in Hv. assert (Hafter : index_ids after = index_ids db0).
  { unfold index_ids. rewrite Hv. reflexivity. }
  split; [|apply IH, Hafter].
  rewrite Hafter, Hbefore. set_solver.
Qed.

Lemma index_kept_no_orphan db0 new :
  no_orphan db0 ->
  Forall (fun c : call * database =>
            vss_rows (snd c) = vss_rows db0 /\ record_ids db0 ⊆ record_ids (snd c)) new ->
  Forall (fun c => no_orphan (snd c)) new.
Proof.
  intros H0 Hnew. eapply Forall_impl; [exact Hnew|]. intros [c db] [Hv Hr]. simpl in *.
  unfold no_orphan, index_ids in *. rewrite Hv. set_solver.
Qed.

(** ** [delete] *)

Lemma delete_unfold env d s :
  delete env d s =
    match delete_statements env d s with
    | (Ok _, s') => con_commit s'
    | (Raise e, s') => (Raise e, s')
    end.
Proof.
  unfold delete, delete_statements, bind, get, cx_close, ret.
  destruct (con_cursor s) as [[cx|e] s1]; [|reflexivity].
  destruct (enter env cx s1) as [[cx'|e] s2]; [|reflexivity].
  destruct (cx_execute env cx' _ _ s2) as [[cx1|e] s3]; [|reflexivity].
  destruct (cx_execute env cx1 _ _ s3) as [[cx2|e] s4]; reflexivity.
Qed.

(** The text on line 98 has no verb: the engine refuses it. *)
Lemma cx_execute_from_raises env cx table cond ps s :
  exists e, fst (cx_execute env cx (From table cond) ps s) = Raise e.
Proof.
  unfold cx_execute. destruct (closed (con s)); simpl; eauto.
Qed.

Lemma delete_statements_raise env d s :
  exists e, fst (delete_statements env d s) = Raise e.
Proof.
  unfold delete_statements, bind, get.
  destruct (con_cursor s) as [[cx|e] s1]; [|eauto].
  destruct (enter env cx s1) as [[cx'|e] s2]; [|eauto].
  destruct (cx_execute env cx' _ _ s2) as [[cx1|e] s3]; [|eauto].
  apply cx_execute_from_raises.
Qed.

Lemma delete_statements_quiet env d : respects quiet (delete_statements env d).
Proof.
  unfold delete_statements.
  apply respects_bind; [apply quiet_trans|apply con_cursor_quiet|]. intros cx.
  apply respects_bind; [apply quiet_trans|apply enter_respects, quiet_refl|]. intros cx'.
  apply respects_bind; [apply quiet_trans|apply respects_get, quiet_refl|]. intros self.
  apply respects_bind; [apply quiet_trans|apply cx_execute_quiet|]. intros cx1.
  apply cx_execute_quiet.
Qed.

Lemma delete_raises_quietly env d s :
  (exists e, fst (delete env d s) = Raise e) /\ quiet s (snd (delete env d s)).
Proof.
  rewrite delete_unfold.
  pose proof (delete_statements_quiet env d s) as Hq.
  destruct (delete_statements_raise env d s) as [e He].
  destruct (delete_statements env d s) as [[cx|e'] s1]; simpl in *; [discriminate He|].
  eauto.
Qed.

(** ** [query] *)

Lemma query_raises env codec q s :
  exists e, fst (query env codec q s) = Raise e.
Proof.
  unfold query, bind, get.
  destruct (con_cursor s) as [[cx|e] s1]; [|eauto].
  rewrite bound_embedding_to_db_raises. simpl. eauto.
Qed.

Lemma result_loop_nonempty_raises codec res rest acc :
  result_loop codec (res :: rest) acc = Raise TypeError.
Proof.
  simpl. unfold result_body. destruct acc as [[ns sims] idl].
  destruct (res_metadata res); reflexivity.
Qed.

Lemma pack_f_length env x : length (pack_f env x) = 4%nat.
Proof. unfold pack_f, word_bytes. destruct (big_endian env); reflexivity. Qed.

Lemma concat_pack_f_length env xs :
  length (concat (map (pack_f env) xs)) = (4 * length xs)%nat.
Proof.
  induction xs as [|x xs IH]; [reflexivity|].
  cbn [map concat]. rewrite length_app, pack_f_length, IH. simpl. lia.
Qed.

(** Called with the embedding alone, the encoder packs any length. *)
Lemma embedding_to_db_packs env xs :
  _embedding_to_db env [Floats xs] = Ok (concat (map (pack_f env) xs)).
Proof.
  unfold _embedding_to_db, struct_pack. destruct (decide _); [reflexivity|congruence].
Qed.

Lemma add_raise_committed env codec rs s e :
  fst (add env codec rs s) = Raise e ->
  committed (con (snd (add env codec rs s))) = committed (con s).
Proof.
  rewrite add_unfold.
  pose proof (add_loop_quiet env codec rs s) as (_ & Hd & _).
  destruct (add_loop env codec rs s) as [[acc|e'] s1] eqn:Hloop; simpl in *; [|auto].
  apply add_loop_ok in Hloop as [_ Hopen].
  unfold con_commit. rewrite Hopen. simpl. discriminate.
Qed.

(** ** The claims *)

(** C7 (the code departs from the claim).  The claim: [add] returns the
    [node_id] of each added node, in input order.  The code: for a batch
    that is not empty [add] never returns; line 82 raises before line 83
    appends the first identifier. *)
Theorem add_returns_no_node_ids :
  (forall env codec r rs s node_ids, fst (add env codec (r :: rs) s) <> Ok node_ids) /\
  fst (add permissive sample_to_dict [node_a] new_store) = Raise TypeError /\
  fst (add stock sample_to_dict [node_a] new_store) = Raise TypeError.
Proof.
  split; [|split; vm_compute; reflexivity].
  intros env codec r rs s node_ids H.
  destruct (add_nonempty_raises env codec r rs s) as [e He]. congruence.
Qed.

(** C4 (the code departs from the claim).  The claim: the similarity scores
    of a query result do not increase along the result.  The code: [query]
    returns no result for any query in any state; the call of
    [_embedding_to_db] through [self] raises while the arguments of
    [fetchall] are evaluated. *)
Theorem query_returns_no_result :
  (forall env codec q s res, fst (query env codec q s) <> Ok res) /\
  fst (query permissive sample_to_node sample_query stored_store) = Raise TypeError.
Proof.
  split; [|vm_compute; reflexivity].
  intros env codec q s res H. destruct (query_raises env codec q s) as [e He]. congruence.
Qed.

(** C5 (the code departs from the claim).  The claim: the result holds three
    parallel sequences, one entry of each per matched row.  The code:
    [_db_query_to_query_result] raises on the first row, at
    [nodes.append()], so it builds a result for no rows only. *)
Theorem db_query_to_query_result_raises_on_rows :
  (forall codec res rest,
     _db_query_to_query_result codec [Rows (res :: rest)] = Raise TypeError) /\
  _db_query_to_query_result sample_to_node [Rows [sample_row]] = Raise TypeError /\
  _db_query_to_query_result sample_to_node [Rows []]
    = Ok {| nodes := []; similarities := []; ids := [] |}.
Proof.
  split; [|split; reflexivity].
  intros codec res rest. unfold _db_query_to_query_result.
  rewrite result_loop_nonempty_raises. reflexivity.
Qed.

(** C6 (the code departs from the claim).  The claim: after [delete] of a
    document no query returns its nodes, and [delete] of an unknown
    document is a no-op.  The code: [delete] raises for every document
    and commits nothing; on a store that holds node 1 of document [d1]
    it raises at the first statement, whose parameter is the string
    itself and not a 1-tuple, and both rows stay. *)
Theorem delete_never_completes :
  (forall env d s,
     (exists e, fst (delete env d s) = Raise e) /\
     committed (con (snd (delete env d s))) = committed (con s)) /\
  (let '(res, s') := delete permissive "d1" stored_store in
   res = Raise ProgrammingError /\
   map id (node_rows (working (con s'))) = [1] /\
   map rowid (vss_rows (working (con s'))) = [1]) /\
  fst (delete permissive "unknown" stored_store) = Raise ProgrammingError.
Proof.
  split; [|split; vm_compute; auto].
  intros env d s. destruct (delete_raises_quietly env d s) as [Hr (_ & Hd & _)]. auto.
Qed.

(** C10.  [add] commits once, after the loop, and only when the loop
    raised nothing: when [add] raises, the committed database is the one
    it found and no [Commit] was called; when it returns, [Commit] is the
    last call it made and the only one. *)
Theorem add_commits_once_after_the_loop env codec rs s :
  let '(res, s') := add env codec rs s in
  exists new,
    trace (con s') = trace (con s) ++ new /\
    match res with
    | Raise _ => committed (con s') = committed (con s) /\ Commit ∉ calls new
    | Ok _ =>
        exists before,
          new = before ++ [(Commit, working (con s'))] /\
          Commit ∉ calls before /\
          committed (con s') = working (con s')
    end.
Proof.
  rewrite add_unfold.
  pose proof (add_loop_quiet env codec rs s) as (_ & Hd & new & Ht & Hn).
  destruct (add_loop env codec rs s) as [[acc|e] s1] eqn:Hloop; simpl in *.
  - apply add_loop_ok in Hloop as [_ Hopen].
    unfold con_commit. rewrite Hopen. simpl.
    exists (new ++ [(Commit, working (con s1))]). split.
    + rewrite Ht. symmetry. apply app_assoc.
    + exists new. auto.
  - exists new. auto.
Qed.

(** Both outcomes occur: a batch of one node raises, the empty batch
    returns after [cursor()] and one commit. *)
Example add_outcomes :
  fst (add permissive sample_to_dict [node_a] new_store) = Raise TypeError /\
  calls (trace (con (snd (add permissive sample_to_dict [] new_store)))) = [Cursor; Commit].
Proof. vm_compute. auto. Qed.

(** No index entry without its record, along [add]: if every index
    entry has its record when [add] starts, then so it is after every
    call [add] makes on the connection, whether [add] returns or raises,
    in the open transaction and in what is committed; and an identity
    that enters the index at some call had its record before that call.
    In that state [query] returns no row.  (It is so because no call of
    [add] writes the index.) *)
Theorem add_keeps_index_within_records env to_dict to_node rs s :
  no_orphan (working (con s)) ->
  no_orphan (committed (con s)) ->
  let s' := snd (add env to_dict rs s) in
  (exists new,
     trace (con s') = trace (con s) ++ new /\
     record_first (working (con s)) new /\
     Forall (fun c => no_orphan (snd c)) new) /\
  no_orphan (working (con s')) /\
  no_orphan (committed (con s')) /\
  (forall q res, fst (query env to_node q s') <> Ok res).
Proof.
  intros Hw Hc s'.
  destruct (add_index_kept env to_dict rs s) as (Hv & Hr & new & Ht & Hnew).
  fold s' in Hv, Hr, Ht.
  assert (Hw' : no_orphan (working (con s'))).
  { unfold no_orphan, index_ids in *. rewrite Hv. set_solver. }
  split; [|split; [exact Hw'|split]].
  - exists new. split; [exact Ht|]. split.
    + eapply index_kept_record_first; [exact Hnew|reflexivity].
    + apply (index_kept_no_orphan (working (con s))); assumption.
  - destruct (add_committed env to_dict rs s) as [H|H]; fold s' in H; rewrite H; assumption.
  - intros q res H. destruct (query_raises env to_node q s') as [e He]. congruence.
Qed.

Lemma add_keeps_index_within_records_witness :
  no_orphan (working (con stored_store)) /\
  no_orphan (committed (con stored_store)) /\
  no_orphan (working (con (snd (add permissive sample_to_dict [node_a] stored_store)))).
Proof.
  assert (H : no_orphan stored_db).
  { unfold no_orphan, index_ids, record_ids. simpl. reflexivity. }
  split; [exact H|]. split; [exact H|].
  apply (add_keeps_index_within_records permissive sample_to_dict sample_to_node
           [node_a] stored_store H H).
Defined.

(** C9, against the claim as stated: on a store that was closed, [add]
    raises the driver's ProgrammingError, not StoreClosed, and it does so
    from a call on the connection, [cursor()], which the trace shows. *)
Lemma closed_store_counterexample :
  let closed_store := snd (close new_store) in
  let '(res, s') := add stock sample_to_dict [] closed_store in
  res = Raise ProgrammingError /\
  res <> Raise StoreClosed /\
  calls (trace (con closed_store)) = [Close] /\
  calls (trace (con s')) = [Close; Cursor].
Proof. vm_compute. repeat split; discriminate. Qed.

(** C9, amended.  [close] closes the connection, which loses the open
    transaction.  On a store whose connection is closed, every [add],
    [delete] or [query] asks the connection for a cursor and fails with
    the driver's ProgrammingError; the connection stays closed and the
    tables are as they were, so the same holds of every later call. *)
Theorem operations_after_close_fail_on_the_connection env to_dict to_node :
  (forall s,
     let closed_store := snd (close s) in
     closed (con closed_store) = true /\
     working (con closed_store) = committed (con s) /\
     committed (con closed_store) = committed (con s)) /\
  (forall s,
     closed (con s) = true ->
     let touched := set_con s (record Cursor (con s)) in
     (forall rs, add env to_dict rs s = (Raise ProgrammingError, touched)) /\
     (forall d, delete env d s = (Raise ProgrammingError, touched)) /\
     (forall q, query env to_node q s = (Raise ProgrammingError, touched)) /\
     closed (con touched) = true /\
     working (con touched) = working (con s) /\
     committed (con touched) = committed (con s)).
Proof.
  split.
  - intros s. simpl. repeat split.
  - intros s Hclosed touched.
    assert (Hcur : con_cursor s = (Raise ProgrammingError, touched)).
    { unfold con_cursor. simpl. rewrite Hclosed. reflexivity. }
    repeat split.
    + intros rs. unfold add, bind. rewrite Hcur. reflexivity.
    + intros d. unfold delete, bind. rewrite Hcur. reflexivity.
    + intros q. unfold query, bind. rewrite Hcur. reflexivity.
    + exact Hclosed.
Qed.

Lemma operations_after_close_fail_on_the_connection_witness :
  closed (con (snd (close stored_store))) = true /\
  fst (query stock sample_to_node sample_query (snd (close stored_store)))
    = Raise ProgrammingError.
Proof.
  assert (H : closed (con (snd (close stored_store))) = true) by reflexivity.
  split; [exact H|].
  destruct (proj2 (operations_after_close_fail_on_the_connection
                     stock sample_to_dict sample_to_node)
              (snd (close stored_store)) H) as (_ & _ & Hq & _).
  rewrite Hq. reflexivity.
Defined.

(** ** The embedding codec *)


Lemma iter_pos_iter {A} (f : A -> A) p x : SpecFloat.iter_pos f p x = Pos.iter f x p.
Proof.
  revert x. induction p as [p IH|p IH|]; intros x; simpl.
  - rewrite !IH. rewrite <- !Pos.iter_swap. reflexivity.
  - rewrite !IH. reflexivity.
  - reflexivity.
Qed.

Lemma digits2_pos_shift m p :
  Zpos (digits2_pos (Pos.iter xO m p)) = Zpos (digits2_pos m) + Zpos p.
Proof.
  induction p as [|p IH] using Pos.peano_ind.
  - simpl. lia.
  - rewrite Pos.iter_succ. simpl. lia.
Qed.

Lemma shr_1_shift m p :
  Pos.iter shr_1 {| shr_m := Zpos (Pos.iter xO m p); shr_r := false; shr_s := false |} p
    = {| shr_m := Zpos m; shr_r := false; shr_s := false |}.
Proof.
  induction p as [|p IH] using Pos.peano_ind.
  - reflexivity.
  - rewrite Pos.iter_succ_r, Pos.iter_succ. simpl. exact IH.
Qed.

Lemma digits2_pos_bounds m :
  2 ^ (Zpos (digits2_pos m) - 1) <= Zpos m < 2 ^ Zpos (digits2_pos m).
Proof.
  induction m as [m IH|m IH|]; simpl digits2_pos.
  - rewrite Pos2Z.inj_succ.
    replace (Z.succ (Zpos (digits2_pos m)) - 1) with (Z.succ (Zpos (digits2_pos m) - 1)) by lia.
    rewrite !Z.pow_succ_r by lia. lia.
  - rewrite Pos2Z.inj_succ.
    replace (Z.succ (Zpos (digits2_pos m)) - 1) with (Z.succ (Zpos (digits2_pos m) - 1)) by lia.
    rewrite !Z.pow_succ_r by lia. lia.
  - simpl. lia.
Qed.

(** What [bounded] says of a binary32 mantissa and exponent. *)
Lemma bounded_single m e :
  bounded 24 128 m e = true ->
  Zpos (digits2_pos m) <= 24 /\ -149 <= e <= 104 /\
  (Zpos (digits2_pos m) < 24 -> e = -149) /\
  fexp 24 128 (Zpos (digits2_pos m) + e) = e.
Proof.
  unfold bounded, canonical_mantissa, fexp, emin.
  intros H. apply andb_true_iff in H as [Hc He].
  apply Z.eqb_eq in Hc. apply Z.leb_le in He. lia.
Qed.

Lemma shr_fexp_id prec emax m ex :
  fexp prec emax (Zpos (digits2_pos m) + ex) = ex ->
  shr_fexp prec emax (Zpos m) ex loc_Exact
    = ({| shr_m := Zpos m; shr_r := false; shr_s := false |}, ex).
Proof.
  intros H. unfold shr_fexp. cbn [Zdigits2]. rewrite H, Z.sub_diag. reflexivity.
Qed.

(** A mantissa already in the format is left as it is. *)
Lemma binary_round_aux_id prec emax sx m ex :
  fexp prec emax (Zpos (digits2_pos m) + ex) = ex ->
  ex <= emax - prec ->
  binary_round_aux prec emax sx (Zpos m) ex loc_Exact = S754_finite sx m ex.
Proof.
  intros H Hle. unfold binary_round_aux.
  rewrite (shr_fexp_id _ _ _ _ H). cbn [shr_m loc_of_shr_record round_nearest_even].
  rewrite (shr_fexp_id _ _ _ _ H). cbn [shr_m].
  apply Z.leb_le in Hle. rewrite Hle. reflexivity.
Qed.

(** A mantissa with [p] trailing zeros too many is shifted back, exactly. *)
Lemma binary_round_aux_shift prec emax sx m p ex :
  fexp prec emax (Zpos (digits2_pos (Pos.iter xO m p)) + ex) - ex = Zpos p ->
  fexp prec emax (Zpos (digits2_pos m) + (ex + Zpos p)) = ex + Zpos p ->
  ex + Zpos p <= emax - prec ->
  binary_round_aux prec emax sx (Zpos (Pos.iter xO m p)) ex loc_Exact
    = S754_finite sx m (ex + Zpos p).
Proof.
  intros Hshift H Hle. unfold binary_round_aux.
  unfold shr_fexp at 1. cbn [Zdigits2]. rewrite Hshift.
  cbn [shr shr_record_of_loc]. rewrite iter_pos_iter, shr_1_shift.
  cbn [shr_m loc_of_shr_record round_nearest_even].
  rewrite (shr_fexp_id _ _ _ _ H). cbn [shr_m].
  apply Z.leb_le in Hle. rewrite Hle. reflexivity.
Qed.

Lemma to_double_finite s m e :
  bounded 24 128 m e = true ->
  exists p,
    Zpos p = 53 - Zpos (digits2_pos m) /\
    to_double (S754_finite s m e) = S754_finite s (Pos.iter xO m p) (e - Zpos p).
Proof.
  intros Hb. apply bounded_single in Hb as (Hd & He & Hsub & Hc).
  assert (Hpos : 0 < 53 - Zpos (digits2_pos m)) by lia.
  destruct (53 - Zpos (digits2_pos m)) as [|p|p] eqn:Hp; try lia.
  exists p. split; [reflexivity|].
  assert (Hround : binary_round 53 1024 s m e
                   = S754_finite s (Pos.iter xO m p) (e - Zpos p)).
  { unfold binary_round, shl_align.
    assert (Hf : fexp 53 1024 (Zpos (digits2_pos m) + e) = e - Zpos p).
    { unfold fexp, emin. lia. }
    rewrite Hf. replace (e - Zpos p - e) with (Zneg p) by lia.
    apply binary_round_aux_id.
    - rewrite digits2_pos_shift. unfold fexp, emin. lia.
    - lia. }
  unfold to_double, binary_normalize. destruct s; simpl cond_Zopp; exact Hround.
Qed.

(** Narrowing undoes widening. *)
Lemma to_single_to_double y :
  valid_binary 24 128 y = true -> to_single (to_double y) = y.
Proof.
  destruct y as [s|s| |s m e]; try reflexivity.
  intros Hb. simpl in Hb.
  destruct (to_double_finite s m e Hb) as (p & Hp & ->).
  apply bounded_single in Hb as (Hd & He & Hsub & Hc).
  assert (Hround : binary_round 24 128 s (Pos.iter xO m p) (e - Zpos p)
                   = S754_finite s m e).
  { unfold binary_round, shl_align. rewrite digits2_pos_shift.
    assert (Hf : fexp 24 128 (Zpos (digits2_pos m) + Zpos p + (e - Zpos p)) = e).
    { rewrite <- Hc at 2. f_equal. lia. }
    rewrite Hf. replace (e - (e - Zpos p)) with (Zpos p) by lia.
    replace e with (e - Zpos p + Zpos p) at 2 by lia.
    apply binary_round_aux_shift.
    - rewrite digits2_pos_shift, Hf. lia.
    - replace (e - Zpos p + Zpos p) with e by lia. exact Hc.
    - lia. }
  unfold to_single, binary_normalize. destruct s; simpl cond_Zopp; exact Hround.
Qed.

Lemma single_mantissa m e :
  bounded 24 128 m e = true ->
  Zpos m < 2 ^ 24 /\ -149 <= e <= 104 /\ (Zpos m < 2 ^ 23 -> e = -149).
Proof.
  intros Hb. apply bounded_single in Hb as (Hd & He & Hsub & _).
  pose proof (digits2_pos_bounds m) as [Hlo Hhi].
  split; [|split; [exact He|]].
  - eapply Z.lt_le_trans; [exact Hhi|]. apply Z.pow_le_mono_r; lia.
  - intros Hm. apply Hsub.
    assert (Zpos (digits2_pos m) - 1 < 23); [|lia].
    apply (Z.pow_lt_mono_r_iff 2); lia.
Qed.

Ltac powers :=
  change (2 ^ 31) with 2147483648 in *; change (2 ^ 32) with 4294967296 in *;
  change (2 ^ 24) with 16777216 in *; change (2 ^ 23) with 8388608 in *;
  change (2 ^ 22) with 4194304 in *; change (2 ^ 16) with 65536 in *;
  change (2 ^ 8) with 256 in *.

Lemma single_bits_range y :
  valid_binary 24 128 y = true -> 0 <= single_bits y < 2 ^ 32.
Proof.
  destruct y as [s|s| |s m e]; simpl; intros Hb.
  - destruct s; unfold sign_bit; powers; lia.
  - destruct s; unfold sign_bit; powers; lia.
  - powers; lia.
  - apply single_mantissa in Hb as (Hm & He & _).
    destruct (Z.ltb_spec (Zpos m) (2 ^ 23)); destruct s; unfold sign_bit; powers; lia.
Qed.

(** The fields read back from the bits are those written. *)
Lemma bits_single_bits y :
  valid_binary 24 128 y = true -> bits_single (single_bits y) = y.
Proof.
  destruct y as [s|s| |s m e]; try (destruct s; reflexivity); try reflexivity.
  simpl. intros Hb. apply single_mantissa in Hb as (Hm & He & Hsub).
  unfold bits_single.
  destruct (Z.ltb_spec (Zpos m) (2 ^ 23)) as [Hlt|Hge].
  - rewrite (Hsub Hlt).
    assert (Hs : (2 ^ 31 <=? sign_bit s + Zpos m) = s).
    { destruct s; unfold sign_bit; powers; [apply Z.leb_le|apply Z.leb_gt]; lia. }
    assert (Hx : ((sign_bit s + Zpos m) / 2 ^ 23) mod 256 = 0).
    { destruct s; unfold sign_bit; powers; Z.div_mod_to_equations; lia. }
    assert (Hf : (sign_bit s + Zpos m) mod 2 ^ 23 = Zpos m).
    { destruct s; unfold sign_bit; powers; Z.div_mod_to_equations; lia. }
    rewrite Hs, Hx, Hf. reflexivity.
  - set (w := sign_bit s + (e + 150) * 2 ^ 23 + (Zpos m - 2 ^ 23)).
    assert (Hs : (2 ^ 31 <=? w) = s).
    { subst w. destruct s; unfold sign_bit; powers; [apply Z.leb_le|apply Z.leb_gt]; lia. }
    assert (Hx : (w / 2 ^ 23) mod 256 = e + 150).
    { subst w. destruct s; unfold sign_bit; powers; Z.div_mod_to_equations; lia. }
    assert (Hf : w mod 2 ^ 23 = Zpos m - 2 ^ 23).
    { subst w. destruct s; unfold sign_bit; powers; Z.div_mod_to_equations; lia. }
    rewrite Hs, Hx, Hf.
    destruct (Z.eqb_spec (e + 150) 0) as [H0|_]; [lia|].
    destruct (Z.eqb_spec (e + 150) 255) as [H255|_]; [lia|].
    replace (Zpos m - 2 ^ 23 + 2 ^ 23) with (Zpos m) by lia.
    replace (e + 150 - 150) with e by lia. reflexivity.
Qed.

Lemma byte_val_byte_of z : byte_val (byte_of z) = z mod 256.
Proof.
  unfold byte_val, byte_of.
  assert (Hr : 0 <= z mod 256 < 256) by (apply Z.mod_pos_bound; lia).
  destruct (Byte.of_N (Z.to_N (z mod 256))) as [b|] eqn:Hb.
  - apply Byte.to_of_N in Hb. rewrite Hb. apply Z2N.id. lia.
  - apply Byte.of_N_None_iff in Hb. lia.
Qed.

(** The bytes of a 32-bit word give the word back, in either byte order. *)
Lemma bytes_word_word_bytes big w :
  0 <= w < 2 ^ 32 ->
  match word_bytes big w with
  | [b0; b1; b2; b3] => bytes_word big b0 b1 b2 b3 = w
  | _ => False
  end.
Proof.
  intros Hw. unfold word_bytes, bytes_word.
  destruct big; cbn [rev app]; rewrite !byte_val_byte_of;
    powers; Z.div_mod_to_equations; lia.
Qed.

Lemma unpack_f_pack_f env y :
  valid_binary 24 128 y = true ->
  match pack_f env (to_double y) with
  | [b0; b1; b2; b3] => unpack_f env b0 b1 b2 b3 = to_double y
  | _ => False
  end.
Proof.
  intros Hy. unfold pack_f, unpack_f. rewrite (to_single_to_double y Hy).
  pose proof (bytes_word_word_bytes (big_endian env) (single_bits y)
                (single_bits_range y Hy)) as H.
  destruct (word_bytes (big_endian env) (single_bits y)) as [|b0 [|b1 [|b2 [|b3 [|]]]]];
    try contradiction.
  rewrite H, (bits_single_bits y Hy). reflexivity.
Qed.

Lemma decode_concat_pack_f env ys :
  Forall single_number ys ->
  decode env (concat (map (pack_f env) (map to_double ys))) = Ok (map to_double ys).
Proof.
  induction 1 as [|y ys [Hy _] _ IH]; [reflexivity|].
  cbn [map concat].
  pose proof (unpack_f_pack_f env y Hy) as H.
  destruct (pack_f env (to_double y)) as [|b0 [|b1 [|b2 [|b3 [|]]]]]; try contradiction.
  cbn [app decode]. rewrite IH, H. reflexivity.
Qed.

(** C2, against the claim as stated: the embedding of dimension 1536
    whose components are all the float nearest to one tenth.  The encoder
    narrows each component to single precision; what decodes is
    0.100000001490116..., another float. *)
Lemma roundtrip_counterexample :
  let v := repeat f_tenth dimension in
  length v = dimension /\
  Forall (fun x => valid_binary 53 1024 x = true) v /\
  exists b, _embedding_to_db permissive [Floats v] = Ok b /\ decode permissive b <> Ok v.
Proof.
  split; [apply repeat_length|]. split.
  - apply Forall_forall. intros x Hx. apply list_elem_of_In, repeat_spec in Hx.
    subst x. reflexivity.
  - eexists. split; [apply embedding_to_db_packs|].
    intros H. vm_compute in H. discriminate H.
Qed.

(** C2, amended.  For every embedding whose components are
    single-precision numbers (taken as Python floats), of any length and
    in either byte order, the encoder returns a buffer and decoding that
    buffer gives the embedding back. *)
Theorem roundtrip_of_single_numbers env (ys : list spec_float) :
  Forall single_number ys ->
  let v := map to_double ys in
  exists b, _embedding_to_db env [Floats v] = Ok b /\ decode env b = Ok v.
Proof.
  intros Hys v. exists (concat (map (pack_f env) v)).
  split; [apply embedding_to_db_packs|apply decode_concat_pack_f, Hys].
Qed.

Lemma roundtrip_of_single_numbers_witness :
  Forall single_number [S754_finite false 8388608 (-23); S754_finite true 13421773 (-27)] /\
  decode stock
    [x00; x00; x80; x3f; xcd; xcc; xcc; xbd]
    = Ok [f_one; S754_finite true 7205759511166976 (-56)].
Proof.
  assert (H : Forall single_number
                [S754_finite false 8388608 (-23); S754_finite true 13421773 (-27)]).
  { repeat constructor; discriminate. }
  split; [exact H|].
  destruct (roundtrip_of_single_numbers stock _ H) as (b & Hb & Hd).
  vm_compute in Hb. injection Hb as <-. exact Hd.
Defined.

(** * Further properties of the methods *)

(** ** [add], node by node *)

Lemma for_each_stops {S A B} (body : A -> B -> M S B) x xs acc s :
  (exists e, fst (body x acc s) = Raise e) ->
  for_each (x :: xs) body acc s = body x acc s.
Proof.
  intros [e He]. rewrite for_each_cons.
  destruct (body x acc s) as [[acc'|e'] s']; simpl in He; [discriminate He|reflexivity].
Qed.

Lemma add_loop_first env codec r rs s :
  add_loop env codec (r :: rs) s = add_loop env codec [r] s.
Proof.
  unfold add_loop, bind.
  destruct (con_cursor s) as [[cx|e] s1]; [|reflexivity].
  destruct (enter env cx s1) as [[cx'|e] s2]; [|reflexivity].
  rewrite !for_each_stops by apply add_body_raises. reflexivity.
Qed.

Lemma add_first_alone env codec r rs s :
  add env codec (r :: rs) s = add env codec [r] s.
Proof. rewrite !add_unfold, add_loop_first. reflexivity. Qed.

(** X1.  [add] never gets past the first node of a batch: for every
    state and driver, a batch that starts with node [r] ends as the
    batch of [r] alone does, with the same exception and the same store,
    whatever follows [r]. *)
Theorem add_stops_at_first_node env codec r rs s :
  add env codec (r :: rs) s = add env codec [r] s /\
  forall rs', add env codec (r :: rs) s = add env codec (r :: rs') s.
Proof.
  split; [apply add_first_alone|].
  intros rs'. rewrite (add_first_alone env codec r rs), (add_first_alone env codec r rs').
  reflexivity.
Qed.

(** X2.  [add] of the empty batch on an open connection writes no
    table.  Where cursors are context managers it returns the empty list
    and commits the open transaction, with the calls [cursor] and
    [commit]; where they are not (the stock driver) the [with] statement
    raises TypeError after the call of [cursor] and nothing is
    committed. *)
Theorem add_of_empty_batch env codec s :
  closed (con s) = false ->
  let '(res, s') := add env codec [] s in
  working (con s') = working (con s) /\
  if cursor_context_manager env
  then res = Ok [] /\ committed (con s') = working (con s) /\
       calls (trace (con s')) = calls (trace (con s)) ++ [Cursor; Commit]
  else res = Raise TypeError /\ committed (con s') = committed (con s) /\
       calls (trace (con s')) = calls (trace (con s)) ++ [Cursor].
Proof.
  intros Hopen. unfold add, bind, con_cursor, enter. simpl. rewrite Hopen.
  destruct (cursor_context_manager env); simpl.
  - unfold con_commit. simpl. rewrite Hopen. simpl.
    split; [reflexivity|]. split; [reflexivity|]. split; [reflexivity|].
    unfold calls. rewrite !map_app, <- app_assoc. reflexivity.
  - split; [reflexivity|]. split; [reflexivity|]. split; [reflexivity|].
    unfold calls. rewrite map_app. reflexivity.
Qed.

Lemma add_of_empty_batch_witness :
  closed (con stored_store) = false /\
  fst (add permissive sample_to_dict [] stored_store) = Ok [].
Proof.
  assert (H : closed (con stored_store) = false) by reflexivity.
  split; [exact H|].
  pose proof (add_of_empty_batch permissive sample_to_dict stored_store H) as Hadd.
  destruct (add permissive sample_to_dict [] stored_store) as [res s'].
  apply Hadd.
Defined.

(** X3.  When the metadata of the first node has no [doc_id] key, [add]
    on an open connection raises before any statement is executed, and
    the only thing that happened to the store is the call of [cursor]:
    with a driver whose cursors are not context managers (the one of the
    source) it is the TypeError of the [with] statement on line 70, and
    where cursors are context managers it is the KeyError of
    [metadata['doc_id']] on line 80. *)
Theorem add_without_doc_id env codec r rs s :
  closed (con s) = false ->
  codec (node r) true flat_metadata !! "doc_id" = None ->
  add env codec (r :: rs) s
    = (Raise (if cursor_context_manager env then KeyError else TypeError),
       set_con s (record Cursor (con s))).
Proof.
  intros Hopen Hkey. rewrite add_first_alone.
  unfold add, bind, con_cursor, enter. simpl. rewrite Hopen.
  destruct (cursor_context_manager env); [|reflexivity].
  simpl. unfold bind, get, lift, getitem. rewrite Hkey. reflexivity.
Qed.

Lemma add_without_doc_id_witness :
  closed (con new_store) = false /\
  bare_to_dict (node node_bare) true flat_metadata !! "doc_id" = None /\
  fst (add stock bare_to_dict [node_bare; node_a] new_store) = Raise TypeError /\
  fst (add permissive bare_to_dict [node_bare; node_a] new_store) = Raise KeyError.
Proof.
  assert (H1 : closed (con new_store) = false) by reflexivity.
  assert (H2 : bare_to_dict (node node_bare) true flat_metadata !! "doc_id" = None)
    by reflexivity.
  split; [exact H1|]. split; [exact H2|].
  rewrite (add_without_doc_id stock bare_to_dict node_bare [node_a] new_store H1 H2).
  rewrite (add_without_doc_id permissive bare_to_dict node_bare [node_a] new_store H1 H2).
  split; reflexivity.
Defined.

(** What the insert of line 75 does to the record table when it succeeds. *)
Lemma run_record_insert_row env db table vs db' rid :
  run env db (Insert table ["node_id"; "node_text"; "metadata"; "doc_id"] (Some 4%nat)) vs
    = Ok (db', rid) ->
  exists row,
    node_rows db' = node_rows db ++ [row] /\
    (id row ∉ map id (node_rows db)) /\
    rid = Some (id row) /\
    vss_rows db' = vss_rows db.
Proof.
  unfold run. destruct (resolve db table) as [[|]|]; [| |discriminate].
  - destruct (decide _); [|discriminate].
    destruct (decide _); [|discriminate].
    destruct (bind_parameters _ _ _); [|discriminate].
    unfold insert_row.
    destruct (decide _) as [|Hfresh]; [discriminate|].
    destruct (decide _); [discriminate|].
    intros [= <- <-]. eexists. split; [reflexivity|]. auto.
  - destruct (decide _) as [Hsub|]; [|discriminate].
    exfalso. assert (Hin : "node_id" ∈ columns_of VssTable) by (apply Hsub; constructor).
    simpl in Hin. set_solver.
Qed.

Lemma appended_refl s : appended s s.
Proof. exists []. rewrite app_nil_r. repeat split; [simpl; lia|constructor]. Qed.

Lemma appended_same s s' :
  node_rows (working (con s')) = node_rows (working (con s)) -> appended s s'.
Proof. intros H. exists []. rewrite app_nil_r. repeat split; [exact H|simpl; lia|constructor]. Qed.

Lemma cx_execute_record_insert_appended env cx table ps s :
  appended s
    (snd (cx_execute env cx
            (Insert table ["node_id"; "node_text"; "metadata"; "doc_id"] (Some 4%nat)) ps s)).
Proof.
  unfold cx_execute. destruct (closed (con s)); [apply appended_same; reflexivity|].
  destruct (run env (working (con s))
              (Insert table ["node_id"; "node_text"; "metadata"; "doc_id"] (Some 4%nat))
              (bindings ps)) as [[db' rid]|e] eqn:Hrun;
    [|apply appended_same; reflexivity].
  apply run_record_insert_row in Hrun as (row & Hrows & Hfresh & _ & _).
  exists [row]. cbn [snd]. split; [exact Hrows|]. split; [simpl; lia|].
  constructor; [exact Hfresh|constructor].
Qed.

Lemma add_body_appended env codec r acc s :
  appended s (snd (add_body env codec r acc s)).
Proof.
  unfold add_body. destruct acc as [cx ids]. unfold bind, get, lift.
  destruct (getitem _ _) as [doc|e]; [|apply appended_refl].
  pose proof (cx_execute_record_insert_appended env cx (node_table_name s)
                (Tuple [VStr (id_ (node r)); VStr (get_content (node r));
                        VDict (codec (node r) true flat_metadata); VStr doc]) s) as H.
  destruct (cx_execute env cx _ _ s) as [[cx'|e] s1]; [|exact H].
  rewrite bound_embedding_to_db_raises. exact H.
Qed.

Lemma con_cursor_state s :
  snd (con_cursor s) = set_con s (record Cursor (con s)).
Proof. unfold con_cursor. simpl. destruct (closed (con s)); reflexivity. Qed.

Lemma add_loop_appended env codec r s :
  appended s (snd (add_loop env codec [r] s)).
Proof.
  unfold add_loop, bind.
  pose proof (con_cursor_state s) as Hcur.
  destruct (con_cursor s) as [[cx|e] s1]; simpl in Hcur; subst s1;
    [|apply appended_same; reflexivity].
  unfold enter. destruct (cursor_context_manager env);
    [|apply appended_same; reflexivity].
  unfold ret at 1. rewrite for_each_stops by apply add_body_raises.
  destruct (add_body_appended env codec r (cx, [])
              (set_con s (record Cursor (con s)))) as (extra & H1 & H2 & H3).
  exists extra. auto.
Qed.

Lemma add_appended env codec rs s :
  appended s (snd (add env codec rs s)) /\
  (rs = [] -> node_rows (working (con (snd (add env codec rs s))))
              = node_rows (working (con s))).
Proof.
  destruct rs as [|r rs].
  - assert (H : node_rows (working (con (snd (add env codec [] s))))
                = node_rows (working (con s))).
    { unfold add, bind, con_cursor. simpl.
      destruct (closed (con s)) eqn:Hc; [reflexivity|].
      unfold enter. destruct (cursor_context_manager env); [|reflexivity].
      simpl. unfold con_commit. simpl. rewrite Hc. reflexivity. }
    split; [apply appended_same, H|intros _; exact H].
  - split; [|discriminate]. rewrite add_first_alone, add_unfold.
    pose proof (add_loop_appended env codec r s) as H.
    destruct (add_loop env codec [r] s) as [[acc|e] s1] eqn:Hloop; [|exact H].
    apply add_loop_ok in Hloop as [Hnil _]. discriminate Hnil.
Qed.

(** X4.  Whatever [add] is given and however it ends, the record table
    of the open transaction afterwards is the one before followed by at
    most one row, whose identity no row had before; for the empty batch
    by none.  [add] removes and rewrites no record. *)
Theorem add_appends_at_most_one_record env codec rs s :
  let s' := snd (add env codec rs s) in
  exists extra,
    node_rows (working (con s')) = node_rows (working (con s)) ++ extra /\
    (length extra <= 1)%nat /\
    Forall (fun row => id row ∉ map id (node_rows (working (con s)))) extra /\
    (rs = [] -> extra = []).
Proof.
  simpl. destruct (add_appended env codec rs s) as [(extra & H1 & H2 & H3) Hnil].
  exists extra. split; [exact H1|]. split; [exact H2|]. split; [exact H3|].
  intros Hrs. specialize (Hnil Hrs). rewrite H1 in Hnil.
  rewrite <- (app_nil_r (node_rows (working (con s)))) in Hnil at 2.
  apply app_inv_head in Hnil. exact Hnil.
Qed.

(** ** [delete], statement by statement *)

Lemma characters_length d : length (characters d) = String.length d.
Proof. induction d as [|c d IH]; simpl; [reflexivity|]. rewrite IH. reflexivity. Qed.

(** A statement with one [?] and another number of parameters changes
    nothing. *)
Lemma run_delete_wrong_arity env db table cond vs :
  length vs <> 1%nat ->
  exists e, run env db (Delete table cond) vs = Raise e.
Proof.
  intros Hlen. unfold run.
  destruct (resolve db table) as [t|]; [|eauto].
  destruct (select_ids db t cond VNone); [|eauto].
  unfold bind_parameters. cbn [placeholders].
  destruct (decide (length vs = 1%nat)) as [Heq|_]; [contradiction|eauto].
Qed.

Lemma cx_execute_failed env cx q ps s e :
  run env (working (con s)) q (bindings ps) = Raise e ->
  exists e', cx_execute env cx q ps s
             = (Raise e', set_con s (record (Execute q ps) (con s))).
Proof.
  intros Hrun. unfold cx_execute. destruct (closed (con s)); [eauto|].
  rewrite Hrun. eauto.
Qed.

(** X6.  [delete] of a [ref_doc_id] that is not one character long
    raises and changes neither the open transaction nor the committed
    database: [(ref_doc_id)] is the string, bound character by character
    to a statement with one [?].  On an open, well-formed store whose
    cursors are context managers the exception is ProgrammingError. *)
Theorem delete_of_longer_doc_id_changes_nothing env d s :
  String.length d <> 1%nat ->
  let '(res, s') := delete env d s in
  (exists e, res = Raise e) /\
  working (con s') = working (con s) /\
  committed (con s') = committed (con s) /\
  (closed (con s) = false -> cursor_context_manager env = true ->
   well_formed s -> res = Raise ProgrammingError).
Proof.
  intros Hlen. rewrite delete_unfold. unfold delete_statements, bind, get.
  pose proof (con_cursor_state s) as Hcur.
  destruct (con_cursor s) as [[cx|e] s1] eqn:Hcursor; simpl in Hcur; subst s1.
  - apply con_cursor_ok in Hcursor as [Hopen _].
    unfold enter. destruct (cursor_context_manager env) eqn:Hctx.
    + unfold ret at 1.
      set (s1 := set_con s (record Cursor (con s))).
      assert (Hvs : length (bindings (Str d)) <> 1%nat).
      { simpl. rewrite characters_length. exact Hlen. }
      destruct (run_delete_wrong_arity env (working (con s1)) (vss_table_name s1)
                  (RowidIn (node_table_name s1) DocIdEq) _ Hvs) as [e He].
      destruct (cx_execute_failed env cx _ (Str d) s1 e He) as [e' He'].
      rewrite He'. simpl. split; [eauto|]. split; [reflexivity|]. split; [reflexivity|].
      intros _ _ (Hn & Hv & Hne).
      unfold cx_execute in He'. simpl in He'. rewrite Hopen in He'.
      unfold run, resolve in He'. simpl in He'.
      rewrite decide_False in He' by (rewrite Hv; congruence).
      rewrite decide_True in He' by exact Hv.
      rewrite decide_True in He' by exact Hn.
      unfold bind_parameters in He'. cbn [placeholders] in He'.
      rewrite decide_False in He' by (rewrite characters_length; exact Hlen).
      congruence.
    + simpl. split; [eauto|]. split; [reflexivity|]. split; [reflexivity|].
      intros _ Habs. discriminate Habs.
  - split; [eauto|]. split; [reflexivity|]. split; [reflexivity|].
    intros Hopen. unfold con_cursor in Hcursor. simpl in Hcursor.
    rewrite Hopen in Hcursor. discriminate Hcursor.
Qed.

Lemma delete_of_longer_doc_id_changes_nothing_witness :
  String.length "d1" <> 1%nat /\
  working (con (snd (delete permissive "d1" stored_store))) = working (con stored_store).
Proof.
  assert (H : String.length "d1" <> 1%nat) by discriminate.
  split; [exact H|].
  pose proof (delete_of_longer_doc_id_changes_nothing permissive "d1" stored_store H) as Hd.
  destruct (delete permissive "d1" stored_store) as [res s'].
  apply Hd.
Defined.

(** ** [query] and [close] *)

Lemma query_fails_state env codec q s :
  snd (query env codec q s) = set_con s (record Cursor (con s)).
Proof.
  unfold query, bind, get, con_cursor. simpl. destruct (closed (con s)); reflexivity.
Qed.

(** X9.  [close] after [add] of a non-empty batch returns, and leaves
    a closed connection that holds what was committed before the [add]:
    the record that [add] wrote is lost with the open transaction. *)
Theorem close_after_failed_add_restores env codec r rs s :
  let s' := snd (close (snd (add env codec (r :: rs) s))) in
  fst (close (snd (add env codec (r :: rs) s))) = Ok tt /\
  closed (con s') = true /\
  working (con s') = committed (con s) /\
  committed (con s') = committed (con s).
Proof.
  destruct (add_nonempty_raises env codec r rs s) as [e He].
  pose proof (add_raise_committed env codec (r :: rs) s e He) as Hc.
  simpl. rewrite Hc. auto.
Qed.

(** ** More on the encoder *)

(** X10.  The encoder works component by component: it returns a
    buffer for every embedding, of four bytes for each component, and
    the buffer of a concatenation is the concatenation of the
    buffers. *)
Theorem embedding_to_db_of_concatenation env xs ys :
  exists bx by_,
    _embedding_to_db env [Floats xs] = Ok bx /\
    _embedding_to_db env [Floats ys] = Ok by_ /\
    _embedding_to_db env [Floats (xs ++ ys)] = Ok (bx ++ by_) /\
    length bx = (4 * length xs)%nat /\
    length by_ = (4 * length ys)%nat.
Proof.
  exists (concat (map (pack_f env) xs)), (concat (map (pack_f env) ys)).
  rewrite !embedding_to_db_packs, map_app, concat_app, !concat_pack_f_length. auto.
Qed.

Lemma map_to_single_to_double ys :
  Forall single_number ys -> map to_single (map to_double ys) = ys.
Proof.
  induction 1 as [|y ys [Hy _] _ IH]; [reflexivity|].
  simpl. rewrite IH. f_equal. apply to_single_to_double, Hy.
Qed.

(** X11.  On single-precision numbers the encoder is injective: two
    embeddings of such numbers (taken as Python floats) with the same
    buffer are the same embedding, whatever their lengths. *)
Theorem embedding_to_db_injective_on_single_numbers env ys ys' :
  Forall single_number ys ->
  Forall single_number ys' ->
  _embedding_to_db env [Floats (map to_double ys)]
    = _embedding_to_db env [Floats (map to_double ys')] ->
  ys = ys'.
Proof.
  intros Hys Hys' Heq. rewrite !embedding_to_db_packs in Heq. injection Heq as Heq.
  pose proof (decode_concat_pack_f env ys Hys) as Hd.
  rewrite Heq, (decode_concat_pack_f env ys' Hys') in Hd. injection Hd as Hmap.
  rewrite <- (map_to_single_to_double ys Hys), <- (map_to_single_to_double ys' Hys').
  rewrite Hmap. reflexivity.
Qed.

Lemma embedding_to_db_injective_on_single_numbers_witness :
  let ys := [S754_finite false 8388608 (-23); S754_finite true 13421773 (-27)] in
  let ys' := map to_single [f_one; S754_finite true 7205759511166976 (-56)] in
  Forall single_number ys /\ ys = ys'.
Proof.
  intros ys ys'.
  assert (H : Forall single_number ys) by (repeat constructor; discriminate).
  assert (H' : Forall single_number ys') by (repeat constructor; discriminate).
  split; [exact H|].
  apply (embedding_to_db_injective_on_single_numbers stock ys ys' H H').
  reflexivity.
Defined.

Lemma shr_1_mantissa r : 0 <= shr_m r -> shr_m (shr_1 r) = shr_m r / 2.
Proof.
  destruct r as [m rb sb]. cbn [shr_m]. intros Hm.
  destruct m as [|[p|p|]|p]; cbn [shr_1 shr_m]; try reflexivity; try lia;
    Z.div_mod_to_equations; lia.
Qed.

Lemma shr_iter_mantissa r p :
  0 <= shr_m r -> shr_m (Pos.iter shr_1 r p) = shr_m r / 2 ^ Zpos p.
Proof.
  intros Hm. induction p as [|p IH] using Pos.peano_ind.
  - simpl. rewrite shr_1_mantissa by exact Hm. reflexivity.
  - rewrite Pos.iter_succ, shr_1_mantissa.
    + rewrite IH, Pos2Z.inj_succ, Z.pow_succ_r by lia.
      rewrite Z.div_div by lia. f_equal. lia.
    + rewrite IH. apply Z.div_pos; lia.
Qed.

Lemma round_nearest_even_bounds m l :
  m <= round_nearest_even m l <= m + 1.
Proof. destruct l as [|[| |]]; simpl; try destruct (Z.even m); lia. Qed.

(** Rounding a mantissa of at least 24 bits at an exponent beyond the
    largest of the format gives infinity. *)
Lemma binary_round_aux_overflow sx mx ex lx mrs e1 :
  shr_fexp 24 128 mx ex lx = (mrs, e1) ->
  2 ^ 23 <= shr_m mrs ->
  104 < e1 ->
  binary_round_aux 24 128 sx mx ex lx = S754_infinity sx.
Proof.
  intros Hfirst Hm He. unfold binary_round_aux. rewrite Hfirst.
  pose proof (round_nearest_even_bounds (shr_m mrs) (loc_of_shr_record mrs)) as Hr.
  set (m2 := round_nearest_even (shr_m mrs) (loc_of_shr_record mrs)) in *.
  assert (Hm2 : 2 ^ 23 <= m2) by lia.
  destruct m2 as [|p2|p2] eqn:Hp2; try (change (2 ^ 23) with 8388608 in Hm2; lia).
  unfold shr_fexp. cbn [Zdigits2 shr_record_of_loc].
  set (n := fexp 24 128 (Zpos (digits2_pos p2) + e1) - e1).
  assert (Hn : n = Zpos (digits2_pos p2) - 24).
  { subst n. unfold fexp, emin. lia. }
  pose proof (digits2_pos_bounds p2) as [Hlo _].
  unfold shr. destruct n as [|pn|pn] eqn:Hpn.
  - cbn [shr_m]. replace (e1 <=? 128 - 24) with false by (symmetry; apply Z.leb_gt; lia).
    reflexivity.
  - rewrite iter_pos_iter.
    pose proof (shr_iter_mantissa {| shr_m := Zpos p2; shr_r := false; shr_s := false |} pn
                  ltac:(simpl; lia)) as Hsh.
    cbn [shr_m] in Hsh.
    assert (Hpos : 2 ^ 23 <= Zpos p2 / 2 ^ Zpos pn).
    { apply Z.div_le_lower_bound; [lia|].
      rewrite <- Z.pow_add_r by lia.
      replace (Zpos pn + 23) with (Zpos (digits2_pos p2) - 1) by lia. exact Hlo. }
    rewrite <- Hsh in Hpos.
    destruct (shr_m (Pos.iter shr_1 _ pn)) as [|q|q];
      try (change (2 ^ 23) with 8388608 in Hpos; lia).
    replace (e1 + Zpos pn <=? 128 - 24) with false by (symmetry; apply Z.leb_gt; lia).
    reflexivity.
  - cbn [shr_m]. replace (e1 <=? 128 - 24) with false by (symmetry; apply Z.leb_gt; lia).
    reflexivity.
Qed.

(** A Python float of magnitude [2^128] or more narrows to infinity. *)
Lemma to_single_overflow s m e :
  bounded 53 1024 m e = true -> 76 <= e ->
  to_single (S754_finite s m e) = S754_infinity s.
Proof.
  intros Hb He.
  assert (Hd : Zpos (digits2_pos m) = 53).
  { unfold bounded, canonical_mantissa, fexp, emin in Hb.
    apply andb_true_iff in Hb as [Hc _]. apply Z.eqb_eq in Hc. lia. }
  pose proof (digits2_pos_bounds m) as [Hlo _]. rewrite Hd in Hlo.
  assert (Hround : binary_round 24 128 s m e = S754_infinity s).
  { unfold binary_round, shl_align. rewrite Hd.
    replace (fexp 24 128 (53 + e) - e) with 29 by (unfold fexp, emin; lia).
    apply (binary_round_aux_overflow s (Zpos m) e loc_Exact
             (Pos.iter shr_1 {| shr_m := Zpos m; shr_r := false; shr_s := false |} 29)
             (e + 29)).
    - unfold shr_fexp. cbn [Zdigits2]. rewrite Hd.
      replace (fexp 24 128 (53 + e) - e) with 29 by (unfold fexp, emin; lia).
      cbn [shr shr_record_of_loc]. rewrite iter_pos_iter. reflexivity.
    - rewrite shr_iter_mantissa by (simpl; lia). cbn [shr_m].
      apply Z.div_le_lower_bound; [lia|].
      rewrite <- Z.pow_add_r by lia. exact Hlo.
    - lia. }
  unfold to_single, binary_normalize. destruct s; cbn [cond_Zopp Z.opp]; exact Hround.
Qed.

(** X12.  A component of magnitude [2^128] or more (a normal Python
    float with exponent field [e >= 76] at a 53-bit mantissa) is not
    refused by the encoder: the buffer is returned, and it is the buffer
    of the embedding with infinity of the same sign in that place. *)
Theorem embedding_to_db_stores_large_values_as_infinity env xs ys s m e :
  bounded 53 1024 m e = true ->
  76 <= e ->
  _embedding_to_db env [Floats (xs ++ S754_finite s m e :: ys)]
    = _embedding_to_db env [Floats (xs ++ S754_infinity s :: ys)] /\
  exists b, _embedding_to_db env [Floats (xs ++ S754_finite s m e :: ys)] = Ok b.
Proof.
  intros Hb He. rewrite !embedding_to_db_packs. split; [|eauto].
  rewrite !map_app. cbn [map]. unfold pack_f at 2 4.
  rewrite (to_single_overflow s m e Hb He). reflexivity.
Qed.

Lemma embedding_to_db_stores_large_values_as_infinity_witness :
  bounded 53 1024 6616662491212929 80 = true /\
  _embedding_to_db stock [Floats [f_one; S754_finite false 6616662491212929 80]]
    = Ok [x00; x00; x80; x3f; x00; x00; x80; x7f].
Proof.
  assert (Hb : bounded 53 1024 6616662491212929 80 = true) by reflexivity.
  split; [exact Hb|].
  destruct (embedding_to_db_stores_large_values_as_infinity stock [f_one] [] false
              6616662491212929 80 Hb ltac:(lia)) as [Heq _].
  etransitivity; [exact Heq|reflexivity].
Defined.

(** ** The names of the tables *)

Lemma append_suffix_distinct (p a b : string) : a <> b -> p +:+ a <> p +:+ b.
Proof.
  intros Hne. induction p as [|c p IH]; simpl; [exact Hne|].
  intros [= H]. exact (IH H).
Qed.

(** X13.  The two table names that [__init__] computes from
    [table_name] (lines 32-34) are different for every [table_name], so
    in the store it sets up each name reaches its own table. *)
Theorem ready_store_is_well_formed connection_string async_connection_string table_name :
  let s := ready connection_string async_connection_string table_name in
  node_table_name s <> vss_table_name s /\
  well_formed s /\
  resolve (working (con s)) (node_table_name s) = Some NodeTable /\
  resolve (working (con s)) (vss_table_name s) = Some VssTable.
Proof.
  assert (Hne : lower table_name +:+ "_data" <> lower table_name +:+ "_vss")
    by (apply append_suffix_distinct; discriminate).
  simpl. split; [exact Hne|]. split; [repeat split; exact Hne|].
  unfold resolve. simpl. split.
  - rewrite decide_True by reflexivity. reflexivity.
  - rewrite decide_False by (intros H; apply Hne; symmetry; exact H).
    rewrite decide_True by reflexivity. reflexivity.
Qed.

(** ** Sequences of operations *)

Lemma run_delete_index_shrinks env db table cond vs db' rid :
  run env db (Delete table cond) vs = Ok (db', rid) ->
  forall e, e ∈ vss_rows db' -> e ∈ vss_rows db.
Proof.
  unfold run. destruct (resolve db table) as [t|]; [|discriminate].
  destruct (select_ids db t cond VNone); [|discriminate].
  destruct (bind_parameters _ _ _); [|discriminate].
  destruct (select_ids db t cond (nth 0 vs VNone)) as [gone|]; [|discriminate].
  intros [= <- _] e. destruct t; simpl; [tauto|].
  rewrite list_elem_of_filter. tauto.
Qed.

Lemma cx_execute_delete_index_shrinks env cx table cond ps s :
  forall e, e ∈ vss_rows (working (con (snd (cx_execute env cx (Delete table cond) ps s)))) ->
            e ∈ vss_rows (working (con s)).
Proof.
  unfold cx_execute. destruct (closed (con s)); [simpl; auto|].
  destruct (run env (working (con s)) (Delete table cond) (bindings ps))
    as [[db' rid]|e'] eqn:Hrun; [|simpl; auto].
  simpl. eapply run_delete_index_shrinks, Hrun.
Qed.

Lemma cx_execute_from_state env cx table cond ps s :
  working (con (snd (cx_execute env cx (From table cond) ps s))) = working (con s).
Proof. unfold cx_execute. destruct (closed (con s)); reflexivity. Qed.

Lemma delete_index_shrinks env d s :
  forall e, e ∈ vss_rows (working (con (snd (delete env d s)))) ->
            e ∈ vss_rows (working (con s)).
Proof.
  intros e. rewrite delete_unfold.
  destruct (delete_statements_raise env d s) as [e0 He0].
  destruct (delete_statements env d s) as [[cx|e1] s1] eqn:Hst; simpl in He0;
    [discriminate He0|].
  simpl. assert (Hs1 : s1 = snd (delete_statements env d s)) by (rewrite Hst; reflexivity).
  subst s1. clear Hst He0. unfold delete_statements, bind, get.
  pose proof (con_cursor_state s) as Hcur.
  destruct (con_cursor s) as [[cx|e2] s1]; simpl in Hcur; subst s1; [|simpl; auto].
  unfold enter. destruct (cursor_context_manager env); [|simpl; auto].
  unfold ret at 1.
  set (s1 := set_con s (record Cursor (con s))).
  pose proof (cx_execute_delete_index_shrinks env cx (vss_table_name s1)
                (RowidIn (node_table_name s1) DocIdEq) (Str d) s1 e) as H1.
  destruct (cx_execute env cx (Delete _ _) (Str d) s1) as [[cx1|e3] s2]; [|exact H1].
  simpl in H1. intros H. apply H1.
  pose proof (cx_execute_from_state env cx1 (node_table_name s1) DocIdEq (Str d) s2) as H2.
  destruct (cx_execute env cx1 (From _ _) (Str d) s2) as [[cx2|e4] s3];
    simpl in H, H2; rewrite H2 in H; exact H.
Qed.

Lemma after_indexed env to_dict to_node s op e :
  indexed (after env to_dict to_node s op) e -> indexed s e.
Proof.
  unfold indexed. destruct op as [rs|d|q|]; simpl.
  - destruct (add_index_kept env to_dict rs s) as (Hv & _).
    destruct (add_committed env to_dict rs s) as [Hc|Hc]; simpl in Hc;
      rewrite Hc, ?Hv; tauto.
  - destruct (delete_raises_quietly env d s) as [_ (_ & Hc & _)]. rewrite Hc.
    intros [H|H]; [left; eapply delete_index_shrinks, H|right; exact H].
  - rewrite query_fails_state. simpl. tauto.
  - tauto.
Qed.

Lemma after_all_indexed env to_dict to_node ops :
  forall s e, indexed (after_all env to_dict to_node ops s) e -> indexed s e.
Proof.
  induction ops as [|op ops IH]; intros s e; simpl; [auto|].
  intros H. apply IH in H. eapply after_indexed, H.
Qed.

(** X14.  No sequence of calls of [add], [delete], [query] and [close]
    puts an entry into the vector index: every entry of the index after
    the calls, uncommitted or committed, was an entry before them.  On a
    store that [__init__] set up over a new database the index stays
    empty for ever. *)
Theorem no_operation_adds_an_index_entry env to_dict to_node :
  (forall ops s e, indexed (after_all env to_dict to_node ops s) e -> indexed s e) /\
  (forall ops connection_string async_connection_string table_name,
     let s := after_all env to_dict to_node ops
                (ready connection_string async_connection_string table_name) in
     vss_rows (working (con s)) = [] /\ vss_rows (committed (con s)) = []).
Proof.
  split; [apply after_all_indexed|].
  intros ops c a t s.
  assert (H : forall e, ~ indexed s e).
  { intros e He. apply after_all_indexed in He. destruct He as [He|He];
      simpl in He; apply elem_of_nil in He; exact He. }
  split.
  - destruct (vss_rows (working (con s))) as [|e l] eqn:Hl; [reflexivity|].
    exfalso. apply (H e). left. rewrite Hl. constructor.
  - destruct (vss_rows (committed (con s))) as [|e l] eqn:Hl; [reflexivity|].
    exfalso. apply (H e). right. rewrite Hl. constructor.
Qed.

Lemma no_operation_adds_an_index_entry_witness :
  let e := {| rowid := 2; vss_embedding := VBytes (repeat x00 (4 * dimension)) |} in
  let ops := [CallAdd [node_a]; CallDelete "d"; CallAdd []; CallQuery sample_query] in
  indexed (after_all permissive sample_to_dict sample_to_node ops two_documents_store) e /\
  indexed two_documents_store e.
Proof.
  intros e ops.
  assert (H : indexed (after_all permissive sample_to_dict sample_to_node ops
                         two_documents_store) e).
  { left. vm_compute. constructor. }
  split; [exact H|].
  exact (proj1 (no_operation_adds_an_index_entry permissive sample_to_dict sample_to_node)
           ops two_documents_store e H).
Defined.

(** *** Records are never removed *)

Lemma same_names_refl s : same_names s s.
Proof. repeat split. Qed.

Lemma same_names_trans s1 s2 s3 : same_names s1 s2 -> same_names s2 s3 -> same_names s1 s3.
Proof. intros (H1 & H2 & H3) (H4 & H5 & H6). repeat split; congruence. Qed.

Lemma insert_row_names db t cols vs db' rid :
  insert_row db t cols vs = Ok (db', rid) ->
  node_name db' = node_name db /\ vss_name db' = vss_name db.
Proof.
  unfold insert_row. destruct t.
  - destruct (decide _); [discriminate|]. destruct (decide _); [discriminate|].
    intros [= <- _]. auto.
  - destruct (decide _); [discriminate|].
    destruct (column_value cols vs "embedding"); try discriminate.
    destruct (decide _); [|discriminate]. intros [= <- _]. auto.
Qed.

Lemma run_names env db q vs db' rid :
  run env db q vs = Ok (db', rid) ->
  node_name db' = node_name db /\ vss_name db' = vss_name db.
Proof.
  destruct q as [table cols [n|]|table cond|table cond]; simpl; try discriminate.
  - destruct (resolve db table) as [t|]; [|discriminate].
    destruct (decide _); [|discriminate]. destruct (decide _); [|discriminate].
    destruct (bind_parameters _ _ _); [|discriminate].
    destruct (insert_row db t cols vs) as [[db1 rid1]|] eqn:Hi; [|discriminate].
    intros [= <- _]. eapply insert_row_names, Hi.
  - destruct (resolve db table) as [t|]; [|discriminate].
    destruct (select_ids db t cond VNone); [|discriminate].
    destruct (bind_parameters _ _ _); [|discriminate].
    destruct (select_ids db t cond (nth 0 vs VNone)); [|discriminate].
    intros [= <- _]. destruct t; auto.
Qed.

Lemma cx_execute_same_names env cx q ps : respects same_names (cx_execute env cx q ps).
Proof.
  intros s. unfold cx_execute. destruct (closed (con s)); [repeat split|].
  destruct (run env (working (con s)) q (bindings ps)) as [[db' rid]|e] eqn:Hrun;
    [|repeat split].
  apply run_names in Hrun as [Hn Hv]. repeat split; assumption.
Qed.

Lemma con_cursor_same_names : respects same_names con_cursor.
Proof. intros s. rewrite con_cursor_state. repeat split. Qed.

Lemma con_commit_same_names : respects same_names con_commit.
Proof. intros s. unfold con_commit. destruct (closed (con s)); repeat split. Qed.

Lemma add_same_names env codec rs : respects same_names (add env codec rs).
Proof.
  unfold add.
  apply respects_bind; [apply same_names_trans|apply con_cursor_same_names|]. intros cx.
  apply respects_bind; [apply same_names_trans|apply enter_respects, same_names_refl|].
  intros cx'.
  apply respects_bind; [apply same_names_trans| |].
  - apply respects_for_each; [apply same_names_refl|apply same_names_trans|].
    intros r [cx1 ids]. unfold add_body.
    apply respects_bind; [apply same_names_trans|apply respects_get, same_names_refl|].
    intros self.
    apply respects_bind; [apply same_names_trans|apply respects_lift, same_names_refl|].
    intros doc.
    apply respects_bind; [apply same_names_trans|apply cx_execute_same_names|]. intros cx2.
    apply respects_bind; [apply same_names_trans|apply respects_lift, same_names_refl|].
    intros blob.
    apply respects_bind; [apply same_names_trans|apply cx_execute_same_names|]. intros cx3.
    apply respects_ret, same_names_refl.
  - intros acc.
    apply respects_bind; [apply same_names_trans|apply respects_ret, same_names_refl|].
    intros _.
    apply respects_bind; [apply same_names_trans|apply con_commit_same_names|]. intros _.
    apply respects_ret, same_names_refl.
Qed.

Lemma delete_same_names env d : respects same_names (delete env d).
Proof.
  unfold delete.
  apply respects_bind; [apply same_names_trans|apply con_cursor_same_names|]. intros cx.
  apply respects_bind; [apply same_names_trans|apply enter_respects, same_names_refl|].
  intros cx'.
  apply respects_bind; [apply same_names_trans|apply respects_get, same_names_refl|].
  intros self.
  apply respects_bind; [apply same_names_trans|apply cx_execute_same_names|]. intros cx1.
  apply respects_bind; [apply same_names_trans|apply cx_execute_same_names|]. intros cx2.
  apply respects_bind; [apply same_names_trans|apply respects_ret, same_names_refl|].
  intros _. apply con_commit_same_names.
Qed.

Lemma run_delete_index_only env db table cond vs db' rid :
  resolve db table = Some VssTable ->
  run env db (Delete table cond) vs = Ok (db', rid) ->
  node_rows db' = node_rows db.
Proof.
  intros Hres. unfold run. rewrite Hres.
  destruct (select_ids db VssTable cond VNone); [|discriminate].
  destruct (bind_parameters _ _ _); [|discriminate].
  destruct (select_ids db VssTable cond (nth 0 vs VNone)); [|discriminate].
  intros [= <- _]. reflexivity.
Qed.

Lemma delete_keeps_records env d s :
  index_named s ->
  node_rows (working (con (snd (delete env d s)))) = node_rows (working (con s)).
Proof.
  intros (Hv & Hne & _). rewrite delete_unfold.
  destruct (delete_statements_raise env d s) as [e0 He0].
  destruct (delete_statements env d s) as [[cx|e1] s1] eqn:Hst; simpl in He0;
    [discriminate He0|].
  simpl. assert (Hs1 : s1 = snd (delete_statements env d s)) by (rewrite Hst; reflexivity).
  subst s1. clear Hst He0. unfold delete_statements, bind, get.
  pose proof (con_cursor_state s) as Hcur.
  destruct (con_cursor s) as [[cx|e2] s1]; simpl in Hcur; subst s1; [|reflexivity].
  unfold enter. destruct (cursor_context_manager env); [|reflexivity].
  unfold ret at 1.
  set (s1 := set_con s (record Cursor (con s))).
  assert (H1 : node_rows (working (con (snd (cx_execute env cx
                 (Delete (vss_table_name s1) (RowidIn (node_table_name s1) DocIdEq))
                 (Str d) s1)))) = node_rows (working (con s))).
  { unfold cx_execute. destruct (closed (con s1)); [reflexivity|].
    destruct (run env (working (con s1)) _ (bindings (Str d))) as [[db' rid]|e'] eqn:Hrun;
      [|reflexivity].
    simpl. eapply run_delete_index_only; [|exact Hrun].
    unfold resolve. simpl.
    rewrite decide_False by (rewrite Hv; congruence).
    rewrite decide_True by exact Hv. reflexivity. }
  destruct (cx_execute env cx (Delete _ _) (Str d) s1) as [[cx1|e3] s2]; [|exact H1].
  simpl in H1.
  pose proof (cx_execute_from_state env cx1 (node_table_name s1) DocIdEq (Str d) s2) as H2.
  destruct (cx_execute env cx1 (From _ _) (Str d) s2) as [[cx2|e4] s3];
    simpl in H2 |- *; rewrite H2; exact H1.
Qed.

Lemma after_holds env to_dict to_node rows s op :
  holds rows s -> holds rows (after env to_dict to_node s op).
Proof.
  intros [(Hv & Hne & Hcn & Hcv) Hrows].
  destruct op as [rs|d|q|]; simpl.
  - destruct (add_same_names env to_dict rs s) as (Hv' & Hn' & Hvn').
    destruct (add_appended env to_dict rs s) as [(extra & Happ & _) _].
    assert (Hw : forall row, row ∈ rows ->
                   row ∈ node_rows (working (con (snd (add env to_dict rs s))))).
    { intros row Hin. rewrite Happ. apply elem_of_app. left. apply Hrows, Hin. }
    destruct (add_committed env to_dict rs s) as [Hc|Hc]; simpl in Hc.
    + split; [repeat split; rewrite ?Hc; congruence|].
      intros row Hin. rewrite Hc. split; [apply Hrows, Hin|apply Hw, Hin].
    + split; [repeat split; rewrite ?Hc; congruence|].
      intros row Hin. rewrite Hc. split; apply Hw, Hin.
  - destruct (delete_same_names env d s) as (Hv' & Hn' & Hvn').
    destruct (delete_raises_quietly env d s) as [_ (_ & Hc & _)].
    pose proof (delete_keeps_records env d s (conj Hv (conj Hne (conj Hcn Hcv)))) as Hk.
    split; [repeat split; rewrite ?Hc; congruence|].
    intros row Hin. rewrite Hc, Hk. apply Hrows, Hin.
  - rewrite query_fails_state. split; [repeat split; assumption|]. exact Hrows.
  - split; [repeat split; simpl; congruence|].
    intros row Hin. simpl. split; apply Hrows, Hin.
Qed.

Lemma after_all_holds env to_dict to_node rows ops :
  forall s, holds rows s -> holds rows (after_all env to_dict to_node ops s).
Proof.
  induction ops as [|op ops IH]; intros s H; simpl; [exact H|].
  apply IH, after_holds, H.
Qed.

(** X15.  No sequence of calls of [add], [delete], [query] and [close]
    removes a committed record: on a store whose index is reached under
    its name and whose committed records are all in the open
    transaction, every committed record is still committed, and in the
    open transaction, after the calls. *)
Theorem no_operation_removes_a_committed_record env to_dict to_node ops s row :
  index_named s ->
  (forall r, r ∈ node_rows (committed (con s)) -> r ∈ node_rows (working (con s))) ->
  row ∈ node_rows (committed (con s)) ->
  let s' := after_all env to_dict to_node ops s in
  row ∈ node_rows (committed (con s')) /\ row ∈ node_rows (working (con s')).
Proof.
  intros Hnamed Hsub Hrow s'.
  assert (H : holds (node_rows (committed (con s))) s).
  { split; [exact Hnamed|]. intros r Hr. split; [exact Hr|apply Hsub, Hr]. }
  apply (after_all_holds env to_dict to_node _ ops s H). exact Hrow.
Qed.

Lemma no_operation_removes_a_committed_record_witness :
  let row := {| id := 1; node_text := VStr "alpha"; metadata := VNone;
                node_id := VStr "a"; doc_id := VStr "d" |} in
  let ops := [CallDelete "d"; CallAdd []; CallAdd [node_a]; CallClose] in
  index_named two_documents_store /\
  row ∈ node_rows (committed (con two_documents_store)) /\
  row ∈ node_rows (committed (con (after_all permissive sample_to_dict sample_to_node
                                     ops two_documents_store))).
Proof.
  intros row ops.
  assert (H1 : index_named two_documents_store).
  { split; [reflexivity|]. split; [simpl; discriminate|]. split; reflexivity. }
  assert (H2 : forall r, r ∈ node_rows (committed (con two_documents_store)) ->
                         r ∈ node_rows (working (con two_documents_store)))
    by (intros r Hr; exact Hr).
  assert (H3 : row ∈ node_rows (committed (con two_documents_store)))
    by (simpl; constructor).
  split; [exact H1|]. split; [exact H3|].
  apply (no_operation_removes_a_committed_record permissive sample_to_dict sample_to_node
           ops two_documents_store row H1 H2 H3).
Defined.

(** * The driver of the source

    [_connect] opens the connection with [sqlite3.connect] (line 45).
    The cursors of that module are not context managers, so the [with]
    statements of [add] (line 70) and [delete] (line 94) raise before
    their blocks are entered. *)

Lemma add_without_context_manager env codec rs s :
  cursor_context_manager env = false ->
  add env codec rs s
    = (Raise (if closed (con s) then ProgrammingError else TypeError),
       set_con s (record Cursor (con s))).
Proof.
  intros Hctx. unfold add, bind, con_cursor, enter. simpl.
  destruct (closed (con s)); [reflexivity|]. rewrite Hctx. reflexivity.
Qed.

Lemma delete_without_context_manager env d s :
  cursor_context_manager env = false ->
  delete env d s
    = (Raise (if closed (con s) then ProgrammingError else TypeError),
       set_con s (record Cursor (con s))).
Proof.
  intros Hctx. unfold delete, bind, con_cursor, enter. simpl.
  destruct (closed (con s)); [reflexivity|]. rewrite Hctx. reflexivity.
Qed.

(** No call writes a table; [close] drops the open transaction. *)
Lemma after_without_context_manager env to_dict to_node s op :
  cursor_context_manager env = false ->
  committed (con (after env to_dict to_node s op)) = committed (con s) /\
  (working (con (after env to_dict to_node s op)) = working (con s) \/
   working (con (after env to_dict to_node s op)) = committed (con s)).
Proof.
  intros Hctx. destruct op as [rs|d|q|]; simpl.
  - rewrite (add_without_context_manager env to_dict rs s Hctx). simpl. auto.
  - rewrite (delete_without_context_manager env d s Hctx). simpl. auto.
  - rewrite query_fails_state. simpl. auto.
  - auto.
Qed.

Lemma after_all_without_context_manager env to_dict to_node ops :
  cursor_context_manager env = false ->
  forall s,
    committed (con (after_all env to_dict to_node ops s)) = committed (con s) /\
    (working (con (after_all env to_dict to_node ops s)) = working (con s) \/
     working (con (after_all env to_dict to_node ops s)) = committed (con s)).
Proof.
  intros Hctx. induction ops as [|op ops IH]; intros s; simpl; [auto|].
  destruct (IH (after env to_dict to_node s op)) as [Hc Hw].
  destruct (after_without_context_manager env to_dict to_node s op Hctx) as [Hc1 Hw1].
  split; [congruence|].
  destruct Hw as [Hw|Hw]; [destruct Hw1 as [Hw1|Hw1]|]; [left|right|right]; congruence.
Qed.




(** ** [add] and the lengths of the embeddings *)






(** ** The index statement of [add] *)

(** C8 (the code departs from the claim).  The claim: within [add], for
    each node, the record is inserted and then its index entry upserted.
    The code: no call that [add] makes writes the vector index, under
    any driver, and with a driver whose cursors are not context managers
    (the one of the source) [add] makes no call but [cursor()].  For the
    node of the example neither the insertion nor the upsert happens:
    both tables are empty afterwards. *)
Theorem add_performs_no_index_upsert :
  (forall env codec rs s,
     let s' := snd (add env codec rs s) in
     vss_rows (working (con s')) = vss_rows (working (con s)) /\
     exists new,
       trace (con s') = trace (con s) ++ new /\
       Forall (fun c => vss_rows (snd c) = vss_rows (working (con s))) new) /\
  (forall env codec rs s,
     cursor_context_manager env = false ->
     let s' := snd (add env codec rs s) in
     trace (con s') = trace (con s) ++ [(Cursor, working (con s))] /\
     working (con s') = working (con s)) /\
  (let '(res, s') := add stock sample_to_dict [node_a] new_store in
   res = Raise TypeError /\
   calls (trace (con s')) = [Cursor] /\
   node_rows (working (con s')) = [] /\
   vss_rows (working (con s')) = []).
Proof.
  split; [|split].
  - intros env codec rs s s'.
    destruct (add_index_kept env codec rs s) as (Hv & _ & new & Ht & Hnew).
    split; [exact Hv|]. exists new. split; [exact Ht|].
    eapply Forall_impl; [exact Hnew|]. intros c [Hc _]. exact Hc.
  - intros env codec rs s Hctx s'. subst s'.
    rewrite (add_without_context_manager env codec rs s Hctx). split; reflexivity.
  - vm_compute. repeat split.
Qed.

(** ** Calls in sequence *)

(** X16.  With a driver whose cursors are not context managers (the one
    of the source), [add] and [delete] stop at their [with] statement
    whatever their arguments (TypeError, or the ProgrammingError of
    [cursor()] on a closed connection), having called [cursor()] and
    nothing else.  Over every sequence of calls of [add], [delete],
    [query] and [close] the committed database stays the same, and the
    open transaction is the one before the calls or, after a [close],
    the committed database. *)
Theorem without_context_manager_no_table_is_written env to_dict to_node :
  cursor_context_manager env = false ->
  (forall rs s,
     add env to_dict rs s
       = (Raise (if closed (con s) then ProgrammingError else TypeError),
          set_con s (record Cursor (con s)))) /\
  (forall d s,
     delete env d s
       = (Raise (if closed (con s) then ProgrammingError else TypeError),
          set_con s (record Cursor (con s)))) /\
  (forall ops s,
     let s' := after_all env to_dict to_node ops s in
     committed (con s') = committed (con s) /\
     (working (con s') = working (con s) \/ working (con s') = committed (con s))).
Proof.
  intros Hctx. split; [|split].
  - intros rs s. apply add_without_context_manager, Hctx.
  - intros d s. apply delete_without_context_manager, Hctx.
  - intros ops s. apply after_all_without_context_manager, Hctx.
Qed.

Lemma without_context_manager_no_table_is_written_witness :
  let ops := [CallAdd [node_a]; CallDelete "d"; CallQuery sample_query; CallAdd []] in
  cursor_context_manager stock = false /\
  committed (con (after_all stock sample_to_dict sample_to_node ops two_documents_store))
    = two_documents_db.
Proof.
  intros ops.
  assert (Hctx : cursor_context_manager stock = false) by reflexivity.
  split; [exact Hctx|].
  destruct (without_context_manager_no_table_is_written stock sample_to_dict sample_to_node
              Hctx) as (_ & _ & Hseq).
  apply (Hseq ops two_documents_store).
Defined.
